(** * LiteCore: reference counting and the C4Socket provider bridge

    A shallow embedding of [LiteCore/Support/RefCounted.hh] (the intrusive
    reference count [RefCounted], the smart pointer [Retained] and the
    leak-audit mix-in [InstanceCounted]) and of the interface declared in
    [Replicator/c4Socket+Internal.hh].

    Objects live in an explicit store.  A C++ pointer is an optional object
    identity ([None] is [nullptr]); touching an object that is no longer in
    the store is undefined behaviour and is modelled by the failure of the
    computation ([None]).  The 32-bit counter is an integer with its
    two's-complement wrap-around written out. *)

From Stdlib Require Import ZArith NArith Lia.
From stdpp Require Import gmap list strings.

Local Open Scope Z_scope.

(** ** 32-bit signed arithmetic of [std::atomic<int32_t>] *)

Definition INT32_MAX : Z := 2147483647.
Definition INT32_MIN : Z := -2147483648.

(** The value an [int32_t] holds after an arithmetic result [z]: atomic
    integer arithmetic wraps, it has no undefined results. *)
Definition wrap32 (z : Z) : Z := (z + 2147483648) mod 4294967296 - 2147483648.

Definition in_int32 (z : Z) : Prop := INT32_MIN <= z <= INT32_MAX.

(** ** The store *)

Module RefCounted.

(** Identity of a [RefCounted] instance, and a [T*]. *)
Definition loc := positive.
Definition ptr := option loc.
Definition nullptr : ptr := None.

(** What happened to an object, newest event first.  The trace is ghost
    state: no operation reads it. *)
Inductive event :=
| Retain (o : loc)
| Release (o : loc)
| Delete (o : loc).

#[global] Instance event_eq_dec : EqDecision event.
Proof. solve_decision. Defined.

Record mem := Mem {
  objs : gmap loc Z;        (** live instances, with their [_refCount] *)
  refs : gmap positive ptr; (** live [Retained] handles, with their [_ref] *)
  trace : list event;
}.

Definition empty_mem : mem := Mem ∅ ∅ [].

(** Computations over the store that may be undefined. *)
Definition M (A : Type) : Type := mem -> option (A * mem).

#[global] Instance M_ret : MRet M := fun A a m => Some (a, m).
#[global] Instance M_bind : MBind M := fun A B k c m =>
  match c m with
  | Some (a, m') => k a m'
  | None => None
  end.

(** [n] runs of [c], one after the other. *)
Definition times {A} (n : N) (c : M A) : M unit :=
  N.iter n (fun acc => acc ;; c ;; mret tt) (mret tt).

(** *** [class RefCounted] *)

(** [int refCount() const { return _refCount; }] *)
Definition refCount (o : loc) (m : mem) : option Z := objs m !! o.

Definition alive (o : loc) (m : mem) : Prop := is_Some (objs m !! o).

(** How many times [delete] ran on [o]. *)
Definition destroyed (o : loc) (m : mem) : nat :=
  length (filter (fun e => e = Delete o) (trace m)).

(** Identities that were ever deleted; a new object never takes one. *)
Definition deleted_locs (m : mem) : gset loc :=
  list_to_set (omap (fun e => match e with Delete o => Some o | _ => None end)
                    (trace m)).

(** [new T]: a fresh instance, [_refCount {0}]. *)
Definition new_RefCounted : M loc := fun m =>
  let o := fresh (dom (objs m) ∪ deleted_locs m) in
  Some (o, Mem (<[o := 0]> (objs m)) (refs m) (trace m)).

(** [void _retain() noexcept { ++_refCount; }] *)
Definition _retain (o : loc) : M unit := fun m =>
  match objs m !! o with
  | Some c => Some (tt, Mem (<[o := wrap32 (c + 1)]> (objs m)) (refs m)
                            (Retain o :: trace m))
  | None => None
  end.

(** [void _release() noexcept { if (--_refCount <= 0) delete this; }]
    The comparison is on the value the atomic decrement returns.  The body
    of the virtual destructor is not in the header; [delete this] is taken
    to end the object and nothing more. *)
Definition _release (o : loc) : M unit := fun m =>
  match objs m !! o with
  | Some c =>
      let c' := wrap32 (c - 1) in
      if c' <=? 0
      then Some (tt, Mem (delete o (objs m)) (refs m)
                         (Delete o :: Release o :: trace m))
      else Some (tt, Mem (<[o := c']> (objs m)) (refs m)
                         (Release o :: trace m))
  | None => None
  end.

(** [retain(r)]: [if (r) r->_retain(); return r;] *)
Definition retain (r : ptr) : M ptr :=
  match r with
  | Some o => _retain o ;; mret r
  | None => mret r
  end.

(** [release(r)]: [if (r) r->_release();] *)
Definition release (r : ptr) : M unit :=
  match r with
  | Some o => _release o
  | None => mret tt
  end.

(** *** [class Retained<T>] *)

Definition href := positive.

(** Reading and writing the [_ref] member of a live handle. *)
Definition get_ref (h : href) : M ptr := fun m =>
  match refs m !! h with
  | Some p => Some (p, m)
  | None => None
  end.

Definition set_ref (h : href) (p : ptr) : M unit := fun m =>
  match refs m !! h with
  | Some _ => Some (tt, Mem (objs m) (<[h := p]> (refs m)) (trace m))
  | None => None
  end.

(** The member initialiser [:_ref(p)] of a handle under construction. *)
Definition init_ref (h : href) (p : ptr) : M unit := fun m =>
  Some (tt, Mem (objs m) (<[h := p]> (refs m)) (trace m)).

(** The storage of a handle goes away at the end of its destructor. *)
Definition drop_ref (h : href) : M unit := fun m =>
  Some (tt, Mem (objs m) (delete h (refs m)) (trace m)).

(** [Retained() noexcept :_ref(nullptr) { }] *)
Definition Retained_default (h : href) : M unit := init_ref h nullptr.

(** [Retained(T *t) noexcept :_ref(retain(t)) { }] *)
Definition Retained_from (h : href) (t : ptr) : M unit :=
  p ← retain t; init_ref h p.

(** [Retained(const Retained &r) noexcept :_ref(retain(r._ref)) { }] *)
Definition Retained_copy (h r : href) : M unit :=
  q ← get_ref r; p ← retain q; init_ref h p.

(** [Retained(Retained &&r) noexcept :_ref(r._ref) {r._ref = nullptr;}] *)
Definition Retained_move (h r : href) : M unit :=
  q ← get_ref r; init_ref h q;; set_ref r nullptr.

(** [~Retained() {release(_ref);}] *)
Definition Retained_destroy (h : href) : M unit :=
  p ← get_ref h; release p;; drop_ref h.

(** [T* get() const noexcept {return _ref;}] *)
Definition get (h : href) : M ptr := get_ref h.

(** [operator=(T *t)]: [retain(t); release(_ref); _ref = t;] *)
Definition assign (h : href) (t : ptr) : M unit :=
  retain t;; (p ← get_ref h; release p);; set_ref h t.

(** [operator=(const Retained &r)]: [return *this = r._ref;] *)
Definition assign_copy (h r : href) : M unit :=
  q ← get_ref r; assign h q.

(** [operator=(Retained &&r)]:
    [release(_ref); _ref = r._ref; r._ref = nullptr;] *)
Definition assign_move (h r : href) : M unit :=
  (p ← get_ref h; release p);;
  (q ← get_ref r; set_ref h q);;
  set_ref r nullptr.

(** *** A fresh object, [n] retains, then [k] releases *)

Definition retains_then_releases (n k : N) : M loc :=
  o ← new_RefCounted;
  times n (retain (Some o));;
  times k (release (Some o));;
  mret o.

(** The new object and the store once it was retained [n] times, in closed
    form (see [retains_then_releases_unfold]). *)
Definition retained_store (m0 : mem) (n : N) : loc * mem :=
  let o := fresh (dom (objs m0) ∪ deleted_locs m0) in
  (o, Mem (<[o := wrap32 (Z.of_N n)]> (objs m0)) (refs m0)
          (N.iter n (cons (Retain o)) (trace m0))).

(** The object is destroyed by the last of [n] releases and by none before:
    after fewer than [n] releases it is still there and [delete] has not
    run, the release that follows the first [n - 1] sees a decremented
    count [<= 0], and after all [n] the object is gone and [delete] ran
    once. *)
Definition destroyed_by_last_release (m0 : mem) (n : N) : Prop :=
  (forall k, (k < n)%N ->
     exists o m c, retains_then_releases n k m0 = Some (o, m) /\
       refCount o m = Some c /\ destroyed o m = 0%nat /\
       ((k + 1 = n)%N -> wrap32 (c - 1) <= 0)) /\
  (exists o m, retains_then_releases n n m0 = Some (o, m) /\
     refCount o m = None /\ destroyed o m = 1%nat).

(** [retain] on a live object adds exactly one to its count. *)
Definition retain_adds_one (o : loc) (m : mem) : Prop :=
  forall c, refCount o m = Some c ->
    exists m', retain (Some o) m = Some (Some o, m') /\
      refCount o m' = Some (c + 1).

(** A pointer that may be passed around: null, or to a live object. *)
Definition valid_ptr (r : ptr) (m : mem) : Prop :=
  match r with
  | Some o => alive o m
  | None => True
  end.

(** Handle [h] is live and its [_ref] is [p]. *)
Definition holds (h : href) (p : ptr) (m : mem) : Prop := refs m !! h = Some p.

(** *** What the handle operations promise *)

(** Assigning to [h] the object it already holds leaves the object alive
    with the count it had. *)
Definition self_assignment_safe (h : href) (o : loc) (m : mem) : Prop :=
  holds h (Some o) m ->
  forall c, refCount o m = Some c ->
    exists m', assign h (Some o) m = Some (tt, m') /\ refCount o m' = Some c.

(** Moving [s], which holds [o], into the live handle [d] leaves [d]
    holding [o], [s] holding null and the count of [o] as it was. *)
Definition move_keeps_count (d s : href) (o : loc) (m : mem) : Prop :=
  holds s (Some o) m -> is_Some (refs m !! d) ->
  exists m', assign_move d s m = Some (tt, m') /\
    holds d (Some o) m' /\ holds s nullptr m' /\
    refCount o m' = refCount o m.

(** What one release of [p] does between [m] and [m']: nothing for
    [nullptr]; otherwise the pointee, at count [c], is deleted when the
    decremented count is [<= 0] and keeps the decremented count when it is
    not, and every other object is as it was. *)
Definition released (p : ptr) (m m' : mem) : Prop :=
  match p with
  | None => objs m' = objs m /\ trace m' = trace m
  | Some o =>
      exists c, refCount o m = Some c /\
        (forall o', o' <> o ->
           refCount o' m' = refCount o' m /\ destroyed o' m' = destroyed o' m) /\
        if wrap32 (c - 1) <=? 0
        then refCount o m' = None /\ destroyed o m' = S (destroyed o m)
        else refCount o m' = Some (wrap32 (c - 1)) /\
             destroyed o m' = destroyed o m
  end.

(** Handle [7] holds object [1] after [2^31] retains: the count has
    wrapped to [INT32_MIN]. *)
Definition wrapped_store : mem :=
  Mem {[1%positive := INT32_MIN]} {[7%positive := Some 1%positive]} [].

(** Handles [7] and [8] both hold object [1], whose count is [2]. *)
Definition aliased_store : mem :=
  Mem {[1%positive := 2]}
      {[7%positive := Some 1%positive; 8%positive := Some 1%positive]} [].

(** *** Ownership through handles *)

(** How many handles of a handle store point to [o]. *)
Definition count_refs (rf : gmap href ptr) (o : loc) : Z :=
  Z.of_nat (size (filter (fun hp : href * ptr => hp.2 = Some o) rf)).

(** How many handles hold [o]. *)
Definition owners (o : loc) (m : mem) : Z := count_refs (refs m) o.

(** Every live object's count is the number of handles that hold it, and
    no handle points to an object that is gone. *)
Definition counted (m : mem) : Prop :=
  forall o, match objs m !! o with
            | Some c => c = owners o m
            | None => owners o m = 0
            end.

(** No object was deleted twice, and no live object was ever deleted. *)
Definition deleted_once (m : mem) : Prop :=
  forall o, (destroyed o m <= 1)%nat /\ (alive o m -> destroyed o m = 0%nat).

(** The counter has room for one more reference per handle. *)
Definition few_handles (m : mem) : Prop := Z.of_nat (size (refs m)) < INT32_MAX.

(** [1] at the object [p] points to, [0] elsewhere. *)
Definition indicator (p : ptr) (o : loc) : Z :=
  if decide (p = Some o) then 1 else 0.

(** In the middle of an operation the counts are ahead of the handles by
    the references [adj] that the operation itself holds or owes. *)
Definition balanced (adj : loc -> Z) (m : mem) : Prop :=
  forall o, match objs m !! o with
            | Some c => c = owners o m + adj o
            | None => owners o m + adj o = 0
            end.

Definition St (adj : loc -> Z) (rf : gmap href ptr) (m : mem) : Prop :=
  balanced adj m /\ deleted_once m /\ refs m = rf.

(** Total correctness of a computation: from a store in [P] it is defined
    and ends in [Q]. *)
Definition triple {A} (P : mem -> Prop) (c : M A) (Q : A -> mem -> Prop) : Prop :=
  forall m, P m -> exists a m', c m = Some (a, m') /\ Q a m'.

(** The operations a program performs on handles. *)
Inductive hop :=
| HDefault (h : href)
| HNew (h : href)
| HFrom (h : href) (t : ptr)
| HCopy (h r : href)
| HMove (h r : href)
| HDestroy (h : href)
| HAssign (h : href) (t : ptr)
| HAssignCopy (h r : href)
| HAssignMove (h r : href).

(** [HNew h] is [Retained<T> h = new T;]. *)
Definition run_hop (a : hop) : M unit :=
  match a with
  | HDefault h => Retained_default h
  | HNew h => o ← new_RefCounted; Retained_from h (Some o)
  | HFrom h t => Retained_from h t
  | HCopy h r => Retained_copy h r
  | HMove h r => Retained_move h r
  | HDestroy h => Retained_destroy h
  | HAssign h t => assign h t
  | HAssignCopy h r => assign_copy h r
  | HAssignMove h r => assign_move h r
  end.

(** What C++ asks of the operands: a constructor runs on storage that holds
    no handle yet, every other handle named is live, and a raw pointer is
    null or points to a live object. *)
Definition hop_ok (a : hop) (m : mem) : Prop :=
  match a with
  | HDefault h | HNew h => refs m !! h = None
  | HFrom h t => refs m !! h = None /\ valid_ptr t m
  | HCopy h r | HMove h r => refs m !! h = None /\ is_Some (refs m !! r)
  | HDestroy h => is_Some (refs m !! h)
  | HAssign h t => is_Some (refs m !! h) /\ valid_ptr t m
  | HAssignCopy h r | HAssignMove h r =>
      is_Some (refs m !! h) /\ is_Some (refs m !! r)
  end.

(** The stores a program reaches from the empty one by handle operations. *)
Inductive reachable : mem -> Prop :=
| reach_start : reachable empty_mem
| reach_step m a m' :
    reachable m -> hop_ok a m -> few_handles m ->
    run_hop a m = Some (tt, m') -> reachable m'.

(** The store after [Retained<T> h = new T;] with handle [7] in an empty
    program: object [1], count [1]. *)
Definition one_handle : mem :=
  Mem {[1%positive := 1]} {[7%positive := Some 1%positive]} [Retain 1%positive].

(** *** Raw retains and releases in any order *)

(** [true] is a retain, [false] a release. *)
Fixpoint run_ops (o : loc) (l : list bool) : M unit :=
  match l with
  | [] => mret tt
  | true :: l' => retain (Some o);; run_ops o l'
  | false :: l' => release (Some o);; run_ops o l'
  end.

(** The count after the operations, as an integer. *)
Fixpoint count_after (c : Z) (l : list bool) : Z :=
  match l with
  | [] => c
  | true :: l' => count_after (c + 1) l'
  | false :: l' => count_after (c - 1) l'
  end.

(** From [c] on, the count stays between [1] and [INT32_MAX]. *)
Fixpoint stays_positive (c : Z) (l : list bool) : Prop :=
  match l with
  | [] => True
  | true :: l' => c + 1 <= INT32_MAX /\ stays_positive (c + 1) l'
  | false :: l' => 1 <= c - 1 /\ stays_positive (c - 1) l'
  end.

End RefCounted.

(** ** [class InstanceCounted] *)

Module InstanceCounted.

(** The process: the static [std::atomic_int gObjectCount], a 32-bit
    [int] that wraps like [_refCount], and the identities of the instances
    that are alive. *)
Record world := World {
  gObjectCount : Z;
  instances : gset positive;
}.

(** [InstanceCounted() {++gObjectCount;}] *)
Definition construct (i : positive) (w : world) : world :=
  World (wrap32 (gObjectCount w + 1)) ({[i]} ∪ instances w).

(** The class declares no copy constructor, so copying an instance runs
    the implicitly defined one, which has no body of the class to run. *)
Definition copy_construct (i : positive) (w : world) : world :=
  World (gObjectCount w) ({[i]} ∪ instances w).

(** [~InstanceCounted() {--gObjectCount;}] *)
Definition destroy (i : positive) (w : world) : world :=
  World (wrap32 (gObjectCount w - 1)) (instances w ∖ {[i]}).

Inductive op :=
| Construct (i : positive)
| Copy (i from : positive)
| Destroy (i : positive).

(** One step of a program; an instance is made at a free identity, copied
    from a live one and destroyed while alive, anything else is undefined. *)
Definition step (w : world) (a : op) : option world :=
  match a with
  | Construct i =>
      if decide (i ∈ instances w) then None else Some (construct i w)
  | Copy i from =>
      if decide (from ∈ instances w ∧ i ∉ instances w)
      then Some (copy_construct i w) else None
  | Destroy i =>
      if decide (i ∈ instances w) then Some (destroy i w) else None
  end.

Fixpoint run (l : list op) (w : world) : option world :=
  match l with
  | [] => Some w
  | a :: l' => match step w a with
               | Some w' => run l' w'
               | None => None
               end
  end.

Definition live (w : world) : Z := Z.of_nat (size (instances w)).

Definition is_copy (a : op) : bool :=
  match a with Copy _ _ => true | _ => false end.

(** How many copy constructions a program makes. *)
Definition copies (l : list op) : Z :=
  Z.of_nat (length (filter (fun a => is_copy a = true) l)).

End InstanceCounted.

(** ** [c4Socket+Internal.hh]

    The header declares the address conversions, [WebSocketFrom] and
    [C4Provider]; their bodies, and the headers that declare [C4Address],
    [websocket::Address] and [C4SocketFactory], are not part of the
    sources at hand. *)

Module C4Socket.

(** Modelled from the spec: the host-facing address struct [C4Address] of
    the missing [c4Socket.h], with the fields the specification lists:
    scheme/TLS flag, hostname, port, path and the optional virtual database
    name. *)
Record C4Address := mkC4Address {
  c4_scheme : string;
  c4_hostname : string;
  c4_port : Z;
  c4_path : string;
  c4_dbname : option string;
}.

(** Modelled from the spec: the internal value type [websocket::Address] of
    the missing [WebSocketInterface.hh], with the same five components. *)
Record Address := mkAddress {
  scheme : string;
  hostname : string;
  port : Z;
  path : string;
  dbname : option string;
}.

(** Modelled from the spec: what this core knows of a peer [c4Database]:
    its name and, when it listens, where. *)
Record c4Database := mkDatabase {
  db_name : string;
  db_listening : option (string * string * Z);
}.

Section Conversions.

(** How a database name is spelled as a path; the specification leaves the
    spelling open. *)
Variable path_of_database : string -> string.

(** Modelled from the spec: the missing body of
    [addressFrom(const C4Address&)], "drops nothing; all fields map 1:1". *)
Definition addressFrom (addr : C4Address) : Address :=
  mkAddress (c4_scheme addr) (c4_hostname addr) (c4_port addr)
            (c4_path addr) (c4_dbname addr).

(** Modelled from the spec: the missing body of
    [c4AddressFrom(const Address&)], the same in the other direction. *)
Definition c4AddressFrom (address : Address) : C4Address :=
  mkC4Address (scheme address) (hostname address) (port address)
              (path address) (dbname address).

(** Modelled from the spec: the missing body of
    [addressFrom(const C4Address&, C4String remoteDatabaseName)]; the
    override replaces the path component. *)
Definition addressFrom_named (addr : C4Address) (remoteDatabaseName : string)
  : Address :=
  mkAddress (c4_scheme addr) (c4_hostname addr) (c4_port addr)
            (path_of_database remoteDatabaseName) (c4_dbname addr).

(** Modelled from the spec: the missing body of [addressFrom(c4Database *otherDB)];
    host, port and scheme come from the peer's listening configuration, the
    path from its name, and a peer with no reachable address gives no
    result. *)
Definition addressFrom_db (otherDB : c4Database) : option Address :=
  match db_listening otherDB with
  | Some (sch, host, prt) =>
      Some (mkAddress sch host prt (path_of_database (db_name otherDB)) None)
  | None => None
  end.

End Conversions.

(** *** The factory registry *)

(** A host function, by its address; an empty slot is a null pointer. *)
Definition callback := positive.

(** Modelled from the spec: the callback table [C4SocketFactory] of the
    missing [c4Socket.h]: open, send, completed-receive and close slots and
    a context. *)
Record C4SocketFactory := mkFactory {
  open : option callback;
  send : option callback;
  completedReceive : option callback;
  close : option callback;
  context : option positive;
}.

Inductive error := ConfigurationError.

(** [static C4SocketFactory *sRegisteredFactory;] *)
Definition registry := option C4SocketFactory.

(** Modelled from the spec: the missing body of
    [C4Provider::validateFactory]; a configuration error if any of the four
    mandatory slots is absent. *)
Definition validateFactory (f : C4SocketFactory) : error + unit :=
  match open f, send f, completedReceive f, close f with
  | Some _, Some _, Some _, Some _ => inr tt
  | _, _, _, _ => inl ConfigurationError
  end.

(** Modelled from the spec: the missing body of
    [C4Provider::registerFactory]; validates, then replaces the active
    table, and on failure leaves the registry as it was. *)
Definition registerFactory (f : C4SocketFactory) (reg : registry)
  : (error + unit) * registry :=
  match validateFactory f with
  | inl e => (inl e, reg)
  | inr _ => (inr tt, Some f)
  end.

(** A table without a send callback, and a complete one. *)
Definition no_send_factory : C4SocketFactory :=
  mkFactory (Some 1%positive) None (Some 3%positive) (Some 4%positive) None.
Definition full_factory : C4SocketFactory :=
  mkFactory (Some 1%positive) (Some 2%positive) (Some 3%positive)
            (Some 4%positive) None.

Section Registry.

(** [extern const C4SocketFactory C4DefaultSocketFactory;] *)
Variable C4DefaultSocketFactory : C4SocketFactory.

(** Modelled from the spec: the missing body of
    [C4Provider::registeredFactory]; the active table, the default being
    installed on first access when none was registered. *)
Definition registeredFactory (reg : registry) : C4SocketFactory * registry :=
  match reg with
  | Some f => (f, reg)
  | None => (C4DefaultSocketFactory, Some C4DefaultSocketFactory)
  end.

End Registry.

(** *** Bindings *)

(** The host's [void *nativeHandle], and the identity of a
    [WebSocketImpl]. *)
Definition handle := positive.
Definition wsid := positive.

Record WebSocketImpl := mkWebSocket {
  ws_address : Address;
  ws_options : list (string * string);
  ws_handle : option handle;
}.

(** The [C4Socket] token handed to the host; it wraps the handle. *)
Record C4Socket := mkC4Socket { nativeHandle : handle }.

(** Calls forwarded to the factory's callbacks, newest first. *)
Inductive call :=
| CallClose (h : handle).

Record provider := mkProvider {
  sockets : gmap wsid WebSocketImpl;
  bindings : gmap handle wsid;
  calls : list call;
}.

(** Modelled from the spec: the missing body of [WebSocketFrom]; the object
    currently bound to the handle, or null. *)
Definition WebSocketFrom (c4sock : C4Socket) (st : provider) : option wsid :=
  bindings st !! nativeHandle c4sock.

(** Modelled from the spec: the missing body of
    [C4Provider::createWebSocket(address, options)]; builds the object and
    neither opens nor binds it. *)
Definition createWebSocket (address : Address) (options : list (string * string))
    (st : provider) : wsid * provider :=
  let w := fresh (dom (sockets st)) in
  (w, mkProvider (<[w := mkWebSocket address options None]> (sockets st))
                 (bindings st) (calls st)).

(** Modelled from the spec: the missing body of
    [C4Provider::createWebSocket(factory, nativeHandle, address, options)];
    builds the object, binds it to the handle and returns the token. *)
Definition createWebSocket_native (factory : C4SocketFactory)
    (nativeHandle : handle) (address : Address)
    (options : list (string * string)) (st : provider) : C4Socket * provider :=
  let w := fresh (dom (sockets st)) in
  (mkC4Socket nativeHandle,
   mkProvider (<[w := mkWebSocket address options (Some nativeHandle)]> (sockets st))
              (<[nativeHandle := w]> (bindings st)) (calls st)).

(** Modelled from the spec: the missing body of [C4Provider::closeSocket];
    forwards the close and removes the binding of the object, and does
    nothing once that binding is gone. *)
Definition closeSocket (w : wsid) (st : provider) : provider :=
  match sockets st !! w with
  | Some ws =>
      match ws_handle ws with
      | Some h =>
          if decide (bindings st !! h = Some w)
          then mkProvider (sockets st) (delete h (bindings st))
                          (CallClose h :: calls st)
          else st
      | None => st
      end
  | None => st
  end.

(** The address of the end-to-end scenario, and a provider in which
    handle [5] is already bound to object [1]. *)
Definition example_address : Address :=
  mkAddress "ws" "example.com" 4984 "/db" None.
Definition busy_provider : provider :=
  mkProvider {[1%positive := mkWebSocket example_address [] (Some 5%positive)]}
             {[5%positive := 1%positive]} [].

End C4Socket.

(** ** Threads sharing one [RefCounted] object

    [_refCount] is a [std::atomic<int32_t>]: [++] and [--] are single
    sequentially consistent read-modify-write steps that return the new
    value.  A release is therefore two steps of its thread: the decrement,
    which yields a value, and the comparison of that value with zero
    followed, when it holds, by [delete this].  Steps of different threads
    interleave in any order. *)

Module Concurrent.

Inductive cop := CRetain | CRelease.

Record thread := Thread {
  prog : list cop;      (** the calls left to make *)
  pending : option Z;   (** the value [--_refCount] returned, not yet compared *)
  held : Z;             (** ghost: the references the thread owns *)
}.

Record shared := Shared {
  count : Z;            (** [_refCount] *)
  deleted : nat;        (** how often [delete this] ran *)
  observed : nat;       (** ghost: how many decrements returned a value [<= 0] *)
  threads : list thread;
}.

(** One step of thread [i].  Touching the counter of a deleted object is
    undefined; a second [delete] is recorded, so that it can be counted. *)
Definition cstep (i : nat) (st : shared) : option shared :=
  match threads st !! i with
  | None => Some st
  | Some t =>
      match pending t with
      | Some v =>
          (* [if (v <= 0) delete this;] on the value the decrement returned *)
          Some (Shared (count st)
                       (if v <=? 0 then S (deleted st) else deleted st)
                       (observed st)
                       (<[i := Thread (prog t) None (held t)]> (threads st)))
      | None =>
          match prog t with
          | [] => Some st
          | CRetain :: p =>
              (* [++_refCount] *)
              match deleted st with
              | O => Some (Shared (wrap32 (count st + 1)) (deleted st) (observed st)
                             (<[i := Thread p None (held t + 1)]> (threads st)))
              | S _ => None
              end
          | CRelease :: p =>
              (* [--_refCount], the value kept for the comparison *)
              match deleted st with
              | O =>
                  let v := wrap32 (count st - 1) in
                  Some (Shared v (deleted st)
                          (if v <=? 0 then S (observed st) else observed st)
                          (<[i := Thread p (Some v) (held t - 1)]> (threads st)))
              | S _ => None
              end
          end
      end
  end.

(** A schedule names the thread that takes each step. *)
Fixpoint crun (sched : list nat) (st : shared) : option shared :=
  match sched with
  | [] => Some st
  | i :: sched' =>
      match cstep i st with
      | Some st' => crun sched' st'
      | None => None
      end
  end.


(** A release as it would be were the counter read again for the
    comparison: not what the source does. *)
Definition cstep_reread (i : nat) (st : shared) : option shared :=
  match threads st !! i with
  | None => Some st
  | Some t =>
      match pending t with
      | Some _ =>
          Some (Shared (count st)
                       (if count st <=? 0 then S (deleted st) else deleted st)
                       (observed st)
                       (<[i := Thread (prog t) None (held t)]> (threads st)))
      | None => cstep i st
      end
  end.

Fixpoint crun_reread (sched : list nat) (st : shared) : option shared :=
  match sched with
  | [] => Some st
  | i :: sched' =>
      match cstep_reread i st with
      | Some st' => crun_reread sched' st'
      | None => None
      end
  end.








(** Two threads that each own one of the two references and release it. *)
Definition two_owners : shared :=
  Shared 2 0 0 [Thread [CRelease] None 1; Thread [CRelease] None 1].

End Concurrent.

(** * Properties *)

(** ** 32-bit arithmetic *)

Lemma wrap32_range z : in_int32 (wrap32 z).
Proof.
  unfold in_int32, wrap32, INT32_MIN, INT32_MAX.
  pose proof (Z.mod_pos_bound (z + 2147483648) 4294967296). lia.
Qed.

Lemma wrap32_id z : in_int32 z -> wrap32 z = z.
Proof.
  unfold in_int32, wrap32, INT32_MIN, INT32_MAX. intros Hz.
  rewrite Z.mod_small; lia.
Qed.

Lemma wrap32_add_l a b : wrap32 (wrap32 a + b) = wrap32 (a + b).
Proof.
  unfold wrap32.
  replace ((a + 2147483648) mod 4294967296 - 2147483648 + b + 2147483648)
    with ((a + 2147483648) mod 4294967296 + b) by lia.
  rewrite Zplus_mod_idemp_l. f_equal. f_equal. lia.
Qed.

Lemma wrap32_sub_l a b : wrap32 (wrap32 a - b) = wrap32 (a - b).
Proof.
  replace (wrap32 a - b) with (wrap32 a + - b) by lia.
  by rewrite wrap32_add_l.
Qed.

Lemma wrap32_succ_pred c : in_int32 c -> wrap32 (wrap32 (c + 1) - 1) = c.
Proof.
  intros Hc. replace (wrap32 (c + 1) - 1) with (wrap32 (c + 1) + -1) by lia.
  rewrite wrap32_add_l. replace (c + 1 + -1) with c by lia.
  by apply wrap32_id.
Qed.

Module RefCountedFacts.
Import RefCounted.

(** *** Unfolding the monad *)

Lemma bind_Some {A B} (c : M A) (k : A -> M B) m a m' :
  c m = Some (a, m') -> (c ≫= k) m = k a m'.
Proof. intros H. unfold mbind, M_bind. by rewrite H. Qed.

Lemma bind_None {A B} (c : M A) (k : A -> M B) m :
  c m = None -> (c ≫= k) m = None.
Proof. intros H. unfold mbind, M_bind. by rewrite H. Qed.

Lemma times_0 {A} (c : M A) m : times 0 c m = Some (tt, m).
Proof. reflexivity. Qed.

Lemma times_succ {A} (n : N) (c : M A) :
  times (N.succ n) c = (times n c ;; c ;; mret tt).
Proof. unfold times. by rewrite N.iter_succ. Qed.

(** *** The trace *)

Lemma destroyed_iter_cons o e n t a b a' b' :
  e <> Delete o ->
  destroyed o (Mem a b (N.iter n (cons e) t)) = destroyed o (Mem a' b' t).
Proof.
  intros He. unfold destroyed. cbn [trace].
  induction n as [|n IH] using N.peano_ind; [done|].
  rewrite N.iter_succ. rewrite filter_cons_False; [done|congruence].
Qed.

Lemma destroyed_eq o m : destroyed o (Mem (objs m) (refs m) (trace m)) = destroyed o m.
Proof. done. Qed.

(** *** [n] retains, [k] releases *)

Lemma retain_live o c m :
  objs m !! o = Some c ->
  retain (Some o) m =
    Some (Some o, Mem (<[o := wrap32 (c + 1)]> (objs m)) (refs m)
                      (Retain o :: trace m)).
Proof.
  intros H. unfold retain. erewrite bind_Some; [reflexivity|].
  unfold _retain. by rewrite H.
Qed.

Lemma release_live o c m :
  objs m !! o = Some c ->
  release (Some o) m =
    if wrap32 (c - 1) <=? 0
    then Some (tt, Mem (delete o (objs m)) (refs m)
                       (Delete o :: Release o :: trace m))
    else Some (tt, Mem (<[o := wrap32 (c - 1)]> (objs m)) (refs m)
                       (Release o :: trace m)).
Proof. intros H. unfold release, _release. by rewrite H. Qed.

Lemma retain_times o c (n : N) m :
  objs m !! o = Some c -> in_int32 c ->
  times n (retain (Some o)) m =
    Some (tt, Mem (<[o := wrap32 (c + Z.of_N n)]> (objs m)) (refs m)
                  (N.iter n (cons (Retain o)) (trace m))).
Proof.
  intros Ho Hc. induction n as [|n IH] using N.peano_ind.
  - rewrite times_0. simpl. rewrite Z.add_0_r, wrap32_id by done.
    rewrite insert_id by done. by destruct m.
  - rewrite times_succ. erewrite bind_Some by exact IH.
    erewrite bind_Some.
    2:{ apply retain_live. simpl. apply lookup_insert_eq. }
    simpl. rewrite insert_insert_eq, wrap32_add_l, N.iter_succ.
    replace (c + Z.of_N n + 1) with (c + Z.of_N (N.succ n)) by lia.
    reflexivity.
Qed.

Lemma release_times o c (k : N) m :
  objs m !! o = Some c -> in_int32 c ->
  (forall j, 1 <= j <= Z.of_N k -> 0 < wrap32 (c - j)) ->
  times k (release (Some o)) m =
    Some (tt, Mem (<[o := wrap32 (c - Z.of_N k)]> (objs m)) (refs m)
                  (N.iter k (cons (Release o)) (trace m))).
Proof.
  intros Ho Hc. induction k as [|k IH] using N.peano_ind; intros Hpos.
  - rewrite times_0. simpl. rewrite Z.sub_0_r, wrap32_id by done.
    rewrite insert_id by done. by destruct m.
  - rewrite times_succ. erewrite bind_Some.
    2:{ apply IH. intros j Hj. apply Hpos. lia. }
    erewrite bind_Some.
    2:{ rewrite (release_live o (wrap32 (c - Z.of_N k)))
          by (simpl; apply lookup_insert_eq).
        replace (wrap32 (c - Z.of_N k) - 1)
          with (wrap32 (c - Z.of_N k) + -1) by lia.
        rewrite wrap32_add_l.
        replace (c - Z.of_N k + -1) with (c - Z.of_N (N.succ k)) by lia.
        pose proof (Hpos (Z.of_N (N.succ k)) ltac:(lia)) as Hk.
        destruct (Z.leb_spec (wrap32 (c - Z.of_N (N.succ k))) 0); [lia|].
        reflexivity. }
    simpl. by rewrite insert_insert_eq, N.iter_succ.
Qed.

Lemma never_deleted o m : o ∉ deleted_locs m -> destroyed o m = 0%nat.
Proof.
  unfold destroyed, deleted_locs.
  induction (trace m) as [|e t IH]; [done|]. intros Hd.
  destruct (decide (e = Delete o)) as [->|Hne].
  - exfalso. apply Hd. simpl. set_solver.
  - rewrite filter_cons_False by done. apply IH.
    intros Hin. apply Hd. simpl. destruct e; set_solver.
Qed.

Lemma new_RefCounted_fresh m o m' :
  new_RefCounted m = Some (o, m') ->
  objs m !! o = None /\ destroyed o m = 0%nat /\
  m' = Mem (<[o := 0]> (objs m)) (refs m) (trace m).
Proof.
  unfold new_RefCounted. intros [= <- <-].
  pose proof (is_fresh (dom (objs m) ∪ deleted_locs m)) as Hf.
  split_and!; [|apply never_deleted|done].
  - apply not_elem_of_dom. set_solver.
  - set_solver.
Qed.

Lemma retains_then_releases_unfold n k m0 :
  retains_then_releases n k m0 =
    (times k (release (Some (retained_store m0 n).1));;
     mret (retained_store m0 n).1) (retained_store m0 n).2.
Proof.
  unfold retains_then_releases.
  destruct (new_RefCounted m0) as [[o m1]|] eqn:Hnew; [|done].
  erewrite bind_Some by exact Hnew.
  destruct (new_RefCounted_fresh _ _ _ Hnew) as (_ & _ & ->).
  injection Hnew as Ho _.
  erewrite bind_Some.
  2:{ apply (retain_times o 0); [apply lookup_insert_eq|].
      unfold in_int32, INT32_MIN, INT32_MAX; lia. }
  cbn [objs refs trace]. rewrite insert_insert_eq, Z.add_0_l.
  unfold retained_store. rewrite Ho. reflexivity.
Qed.

Lemma retained_store_fresh m0 n :
  objs m0 !! (retained_store m0 n).1 = None /\
  destroyed (retained_store m0 n).1 m0 = 0%nat.
Proof.
  destruct (new_RefCounted_fresh m0 _ _ eq_refl) as (H1 & H2 & _). done.
Qed.

(** Fewer releases than retains, no more than [2^31] of them: the object
    stays, with the count that is left. *)
Lemma fewer_releases m0 (n k : N) :
  (k < n)%N -> Z.of_N n <= 2147483648 ->
  let o := (retained_store m0 n).1 in
  let m := (retained_store m0 n).2 in
  times k (release (Some o)) m =
    Some (tt, Mem (<[o := wrap32 (Z.of_N n - Z.of_N k)]> (objs m0)) (refs m0)
                  (N.iter k (cons (Release o))
                     (N.iter n (cons (Retain o)) (trace m0)))).
Proof.
  intros Hk Hn o m.
  assert (Hw : forall j, wrap32 (wrap32 (Z.of_N n) - j) = wrap32 (Z.of_N n - j)).
  { intros j. replace (wrap32 (Z.of_N n) - j) with (wrap32 (Z.of_N n) + - j) by lia.
    by rewrite wrap32_add_l. }
  rewrite (release_times o (wrap32 (Z.of_N n))).
  - subst m. unfold retained_store. cbn [snd objs refs trace]. fold o.
    by rewrite insert_insert_eq, Hw.
  - subst m. unfold retained_store. cbn [snd objs]. apply lookup_insert_eq.
  - apply wrap32_range.
  - intros j Hj. rewrite Hw, wrap32_id; [lia|].
    unfold in_int32, INT32_MIN, INT32_MAX. lia.
Qed.

(** When the wrapped count after [n] retains is such that one decrement
    leaves it [<= 0], the very first release deletes the object. *)
Lemma first_release_destroys m0 (n : N) :
  wrap32 (wrap32 (Z.of_N n) - 1) <= 0 ->
  exists m, retains_then_releases n 1 m0 = Some ((retained_store m0 n).1, m) /\
    refCount (retained_store m0 n).1 m = None.
Proof.
  intros Hle. set (o := (retained_store m0 n).1).
  eexists. rewrite retains_then_releases_unfold. fold o.
  change 1%N with (N.succ 0). rewrite times_succ.
  erewrite bind_Some.
  2:{ erewrite bind_Some by apply times_0.
      erewrite bind_Some; [reflexivity|].
      rewrite (release_live o (wrap32 (Z.of_N n))).
      - destruct (Z.leb_spec (wrap32 (wrap32 (Z.of_N n) - 1)) 0); [|lia].
        reflexivity.
      - unfold retained_store. cbn [snd objs]. apply lookup_insert_eq. }
  split; [reflexivity|].
  unfold refCount. cbn [objs]. apply lookup_delete_eq.
Qed.

(** C1 (as amended). For every store, a fresh object and [1 <= n <= 2^31]:
    after [n] retains and fewer than [n] releases the object is alive and
    was never deleted; the release after the first [n - 1] decrements the
    count to [<= 0]; after [n] releases the object is gone and was deleted
    exactly once. *)
Theorem last_release_destroys_once (m0 : mem) (n : N) :
  (1 <= n)%N -> (n <= 2147483648)%N -> destroyed_by_last_release m0 n.
Proof.
  intros H1 Hn.
  destruct (retained_store_fresh m0 n) as [_ Hnd].
  set (o := (retained_store m0 n).1) in *.
  assert (Hone : wrap32 1 = 1) by reflexivity.
  split.
  - intros k Hk.
    eexists o, _, (wrap32 (Z.of_N n - Z.of_N k)).
    rewrite retains_then_releases_unfold.
    erewrite bind_Some by (apply fewer_releases; lia).
    split_and!; [reflexivity| | |].
    + unfold refCount. cbn [objs]. apply lookup_insert_eq.
    + rewrite (destroyed_iter_cons _ _ _ _ _ _ (objs m0) (refs m0)) by done.
      rewrite (destroyed_iter_cons _ _ _ _ _ _ (objs m0) (refs m0)) by done.
      by rewrite destroyed_eq.
    + intros Hlast. replace (Z.of_N n - Z.of_N k) with 1 by lia.
      by rewrite Hone.
  - eexists o, _.
    rewrite retains_then_releases_unfold.
    replace n with (N.succ (N.pred n)) at 1 by lia.
    rewrite times_succ.
    erewrite bind_Some.
    2:{ erewrite bind_Some by (apply fewer_releases; lia).
        erewrite bind_Some; [reflexivity|].
        rewrite (release_live o (wrap32 (Z.of_N n - Z.of_N (N.pred n))))
          by (cbn [objs]; apply lookup_insert_eq).
        replace (Z.of_N n - Z.of_N (N.pred n)) with 1 by lia.
        rewrite Hone. reflexivity. }
    split_and!; [reflexivity| |].
    + unfold refCount. cbn [objs]. apply lookup_delete_eq.
    + unfold destroyed. cbn [trace].
      rewrite filter_cons_True by done.
      rewrite filter_cons_False by done. cbn [length]. f_equal.
      change (destroyed o (Mem (objs m0) (refs m0)
                (N.iter (N.pred n) (cons (Release o))
                   (N.iter n (cons (Retain o)) (trace m0)))) = 0%nat).
      rewrite (destroyed_iter_cons _ _ _ _ _ _ (objs m0) (refs m0)) by done.
      rewrite (destroyed_iter_cons _ _ _ _ _ _ (objs m0) (refs m0)) by done.
      by rewrite destroyed_eq.
Qed.

Lemma last_release_destroys_once_witness :
  (1 <= 3)%N /\ (3 <= 2147483648)%N /\ destroyed_by_last_release empty_mem 3.
Proof.
  split; [lia|]. split; [lia|].
  apply (last_release_destroys_once empty_mem 3); lia.
Defined.

(** C1 as stated fails once the 32-bit count has wrapped: after
    [2^31 + 1] retains of a fresh object the count is [-2147483647], and
    the first release already deletes the object. *)
Lemma first_release_destroys_after_overflow :
  ~ destroyed_by_last_release empty_mem 2147483649.
Proof.
  intros [Hearly _].
  destruct (Hearly 1%N ltac:(lia)) as (o & m & c & Hrun & Hc & _).
  destruct (first_release_destroys empty_mem 2147483649) as (m' & Hrun' & Hgone).
  { by vm_compute. }
  rewrite Hrun' in Hrun.
  assert (Hom : ((retained_store empty_mem 2147483649).1, m') = (o, m))
    by congruence.
  apply (f_equal (fun om => refCount om.1 om.2)) in Hom. cbn [fst snd] in Hom.
  rewrite Hgone, Hc in Hom. discriminate Hom.
Qed.

(** *** [retain], [release] and the initial count *)

(** C2 (as amended). [retain r] returns [r]; on a live object it replaces
    the count [c] by [c + 1] in 32-bit arithmetic, which is [c + 1] itself
    below [INT32_MAX], and leaves every other object alone; on [nullptr] it
    changes nothing.  [release nullptr] changes nothing.  A new object has
    count [0]. *)
Theorem retain_returns_and_increments (m : mem) (r : ptr) :
  valid_ptr r m ->
  (forall o c, r = Some o -> refCount o m = Some c -> in_int32 c) ->
  (exists m', retain r m = Some (r, m') /\
     match r with
     | Some o =>
         forall c, refCount o m = Some c ->
           refCount o m' = Some (wrap32 (c + 1)) /\
           (c < INT32_MAX -> refCount o m' = Some (c + 1)) /\
           (forall o', o' <> o -> refCount o' m' = refCount o' m) /\
           refs m' = refs m
     | None => m' = m
     end) /\
  release nullptr m = Some (tt, m) /\
  (exists o m1, new_RefCounted m = Some (o, m1) /\
     refCount o m = None /\ refCount o m1 = Some 0).
Proof.
  intros Hv Hrange. split_and!.
  - destruct r as [o|]; [|by eexists].
    destruct Hv as [c Hc]. eexists. split; [by apply retain_live|].
    intros c' Hc'. unfold refCount in *. cbn [objs refs].
    assert (c' = c) as -> by congruence.
    split_and!; [apply lookup_insert_eq| | |done].
    + intros Hlt. rewrite lookup_insert_eq, wrap32_id; [done|].
      specialize (Hrange o c eq_refl Hc).
      unfold in_int32, INT32_MIN, INT32_MAX in *. lia.
    + intros o' Hne. by apply lookup_insert_ne.
  - reflexivity.
  - eexists _, _. split; [reflexivity|].
    destruct (new_RefCounted_fresh m _ _ eq_refl) as (Hnone & _ & _).
    split; [exact Hnone|]. unfold refCount. cbn [objs]. apply lookup_insert_eq.
Qed.

Lemma retain_returns_and_increments_witness :
  exists m', retain (Some 1%positive) (Mem {[1%positive := 5]} ∅ []) =
               Some (Some 1%positive, m') /\
             refCount 1%positive m' = Some 6.
Proof.
  destruct (retain_returns_and_increments
              (Mem {[1%positive := 5]} ∅ []) (Some 1%positive))
    as ((m' & Hret & Hcount) & _ & _).
  - exists 5. reflexivity.
  - intros o c [= <-] Hc. vm_compute in Hc. injection Hc as <-.
    unfold in_int32, INT32_MIN, INT32_MAX. lia.
  - exists m'. split; [exact Hret|].
    destruct (Hcount 5 eq_refl) as (_ & Hplus & _). apply Hplus.
    unfold INT32_MAX. lia.
Defined.

(** C2 as stated fails at the top of the range: [++_refCount] on
    [INT32_MAX] wraps to [INT32_MIN], it does not add one. *)
Lemma retain_wraps_at_INT32_MAX :
  ~ retain_adds_one 1%positive (Mem {[1%positive := INT32_MAX]} ∅ []).
Proof.
  intros H. destruct (H INT32_MAX eq_refl) as (m' & Hret & Hcount).
  vm_compute in Hret. injection Hret as <-.
  vm_compute in Hcount. discriminate Hcount.
Qed.

(** C10. A new object that was never retained is deleted by its first
    release, whose decremented count is [-1]; and whatever the count of a
    live object, a release deletes it exactly when the decremented count
    is [<= 0], and otherwise stores the decremented count. *)
Theorem release_destroys_when_nonpositive (m : mem) :
  (exists o m', (o ← new_RefCounted; release (Some o);; mret o) m = Some (o, m') /\
     wrap32 (0 - 1) = -1 /\
     refCount o m = None /\ refCount o m' = None /\
     destroyed o m' = 1%nat /\ trace m' = Delete o :: Release o :: trace m) /\
  (forall o c, refCount o m = Some c ->
     exists m', release (Some o) m = Some (tt, m') /\
       (wrap32 (c - 1) <= 0 ->
          refCount o m' = None /\ destroyed o m' = S (destroyed o m)) /\
       (0 < wrap32 (c - 1) ->
          refCount o m' = Some (wrap32 (c - 1)) /\
          destroyed o m' = destroyed o m)).
Proof.
  split.
  - destruct (new_RefCounted_fresh m _ _ eq_refl) as (Hnone & Hnd & _).
    eexists _, _. split_and!.
    + erewrite bind_Some by reflexivity.
      erewrite bind_Some; [reflexivity|].
      erewrite release_live by (cbn [objs]; apply lookup_insert_eq).
      reflexivity.
    + reflexivity.
    + exact Hnone.
    + unfold refCount. cbn [objs]. apply lookup_delete_eq.
    + unfold destroyed in *. cbn [trace].
      rewrite filter_cons_True by done. rewrite filter_cons_False by done.
      cbn [length]. by rewrite Hnd.
    + reflexivity.
  - intros o c Hc. unfold refCount in *. rewrite (release_live o c) by done.
    destruct (Z.leb_spec (wrap32 (c - 1)) 0) as [Hle|Hgt].
    + eexists. split; [reflexivity|]. split; [|lia]. intros _.
      cbn [objs]. split; [apply lookup_delete_eq|].
      unfold destroyed. cbn [trace].
      rewrite filter_cons_True by done. by rewrite filter_cons_False.
    + eexists. split; [reflexivity|]. split; [lia|]. intros _.
      cbn [objs]. split; [apply lookup_insert_eq|].
      unfold destroyed. cbn [trace]. by rewrite filter_cons_False.
Qed.

Lemma release_destroys_when_nonpositive_witness :
  exists m', release (Some 1%positive) (Mem {[1%positive := -3]} ∅ []) =
               Some (tt, m') /\
             refCount 1%positive m' = None /\ destroyed 1%positive m' = 1%nat.
Proof.
  destruct (release_destroys_when_nonpositive (Mem {[1%positive := -3]} ∅ []))
    as [_ Hrel].
  destruct (Hrel 1%positive (-3) eq_refl) as (m' & Hrun & Hdel & _).
  exists m'. split; [exact Hrun|]. apply Hdel. vm_compute. discriminate.
Defined.

(** *** Handles *)

Lemma retain_refs r m r' m' : retain r m = Some (r', m') -> r' = r /\ refs m' = refs m.
Proof.
  destruct r as [o|]; unfold retain, mbind, M_bind, mret, M_ret, _retain.
  - destruct (objs m !! o); [|done]. cbv beta iota.
    intros [= <- <-]. split; reflexivity.
  - intros [= <- <-]. split; reflexivity.
Qed.

Lemma release_refs r m u m' : release r m = Some (u, m') -> refs m' = refs m.
Proof.
  destruct r as [o|]; unfold release, _release, mret, M_ret.
  - destruct (objs m !! o); [|done].
    destruct (_ <=? 0); by intros [= _ <-].
  - by intros [= _ <-].
Qed.

Lemma get_ref_holds h p m : holds h p m -> get_ref h m = Some (p, m).
Proof. unfold holds, get_ref. by intros ->. Qed.

Lemma set_ref_holds h p q m :
  holds h p m ->
  set_ref h q m = Some (tt, Mem (objs m) (<[h := q]> (refs m)) (trace m)).
Proof. unfold holds, set_ref. by intros ->. Qed.

(** [operator=(T *t)] runs the release of the old pointer on the store that
    the retain of the new one produced. *)
Lemma assign_run h p t m m1 m2 :
  holds h p m ->
  retain t m = Some (t, m1) -> release p m1 = Some (tt, m2) ->
  assign h t m = Some (tt, Mem (objs m2) (<[h := t]> (refs m)) (trace m2)).
Proof.
  intros Hh Hret Hrel. unfold assign.
  destruct (retain_refs _ _ _ _ Hret) as [_ Hr1].
  pose proof (release_refs _ _ _ _ Hrel) as Hr2.
  erewrite bind_Some by exact Hret.
  erewrite bind_Some.
  2:{ erewrite bind_Some; [exact Hrel|].
      apply get_ref_holds. unfold holds in *. by rewrite Hr1. }
  rewrite (set_ref_holds h p); [by rewrite Hr2, Hr1|].
  unfold holds in *. by rewrite Hr2, Hr1.
Qed.

(** Retaining and then releasing a live object whose count is at least
    one gives the store back, but for the trace. *)
Lemma retain_release_same o c m :
  refCount o m = Some c -> 1 <= c <= INT32_MAX ->
  exists m1 m2,
    retain (Some o) m = Some (Some o, m1) /\
    release (Some o) m1 = Some (tt, m2) /\
    objs m2 = objs m /\ refs m2 = refs m /\
    trace m2 = Release o :: Retain o :: trace m.
Proof.
  intros Hc Hr. unfold refCount in Hc.
  assert (Hin : in_int32 c) by (unfold in_int32, INT32_MIN, INT32_MAX in *; lia).
  eexists _, _. split; [by apply retain_live|].
  rewrite (release_live o (wrap32 (c + 1))) by (cbn [objs]; apply lookup_insert_eq).
  rewrite wrap32_succ_pred by done.
  destruct (Z.leb_spec c 0); [lia|].
  split; [reflexivity|]. cbn [objs refs trace].
  rewrite insert_insert_eq, insert_id by done. done.
Qed.

(** C3 (as amended). Assignment retains the new pointer on the current
    store and then releases the old one on the result, and
    copy-construction only retains.  Hence, when [h] holds a live [o]
    whose count is between [1] and [INT32_MAX], assigning [o] to [h]
    again, or copy-assigning from any handle [r] that holds [o] ([h]
    itself included), deletes nothing and leaves the counts and the
    handles as they were. *)
Theorem self_assignment_keeps_object (m : mem) (h r : href) (o : loc) (c : Z) :
  holds h (Some o) m -> holds r (Some o) m ->
  refCount o m = Some c -> 1 <= c <= INT32_MAX ->
  (forall t m1 m2,
     retain t m = Some (t, m1) -> release (Some o) m1 = Some (tt, m2) ->
     assign h t m = Some (tt, Mem (objs m2) (<[h := t]> (refs m)) (trace m2))) /\
  (forall h' m1,
     retain (Some o) m = Some (Some o, m1) ->
     Retained_copy h' r m =
       Some (tt, Mem (objs m1) (<[h' := Some o]> (refs m)) (trace m1))) /\
  (exists m',
     assign h (Some o) m = Some (tt, m') /\
     assign_copy h r m = Some (tt, m') /\
     refCount o m' = Some c /\ objs m' = objs m /\ refs m' = refs m /\
     destroyed o m' = destroyed o m /\
     trace m' = Release o :: Retain o :: trace m).
Proof.
  intros Hh Hr Hc Hrange. split_and!.
  - intros t m1 m2. by apply assign_run.
  - intros h' m1 Hret. unfold Retained_copy.
    erewrite bind_Some by (by apply get_ref_holds).
    erewrite bind_Some by exact Hret.
    destruct (retain_refs _ _ _ _ Hret) as [_ Hr1].
    unfold init_ref. by rewrite Hr1.
  - destruct (retain_release_same o c m Hc Hrange)
      as (m1 & m2 & Hret & Hrel & Hobjs & Hrefs & Htrace).
    pose proof (assign_run h (Some o) (Some o) m m1 m2 Hh Hret Hrel) as Hrun.
    eexists. split_and!; [exact Hrun| | | | | |].
    + unfold assign_copy. erewrite bind_Some by (by apply get_ref_holds).
      exact Hrun.
    + unfold refCount in *. cbn [objs]. by rewrite Hobjs.
    + done.
    + cbn [refs]. by apply insert_id.
    + unfold destroyed. cbn [trace]. rewrite Htrace.
      by rewrite !filter_cons_False.
    + done.
Qed.

Lemma self_assignment_keeps_object_witness :
  exists m',
    assign 7%positive (Some 1%positive)
      (Mem {[1%positive := 1]} {[7%positive := Some 1%positive]} []) =
      Some (tt, m') /\
    refCount 1%positive m' = Some 1.
Proof.
  destruct (self_assignment_keeps_object
              (Mem {[1%positive := 1]} {[7%positive := Some 1%positive]} [])
              7%positive 7%positive 1%positive 1)
    as (_ & _ & m' & Hrun & _ & Hcount & _).
  - reflexivity.
  - reflexivity.
  - reflexivity.
  - unfold INT32_MAX. lia.
  - exists m'. split; [exact Hrun | exact Hcount].
Defined.

(** C3 as stated fails when the count has wrapped: with the count at
    [INT32_MIN] the retain gives [INT32_MIN + 1], the release decrements
    back to [INT32_MIN <= 0] and deletes the object, and the handle still
    points to it. *)
Lemma self_assignment_deletes_at_wrapped_count :
  ~ self_assignment_safe 7%positive 1%positive wrapped_store.
Proof.
  intros Hsafe.
  destruct (Hsafe eq_refl INT32_MIN eq_refl) as (m' & Hrun & Hcount).
  vm_compute in Hrun. injection Hrun as <-.
  vm_compute in Hcount. discriminate Hcount.
Qed.

(** The order matters: releasing the only reference first deletes the
    object, and the retain that follows is undefined. *)
Remark release_before_retain_undefined o m :
  refCount o m = Some 1 ->
  (release (Some o);; retain (Some o)) m = None.
Proof.
  intros Hc. unfold refCount in Hc.
  erewrite bind_Some by (by rewrite (release_live o 1)).
  unfold retain. apply bind_None. unfold _retain. cbn [objs].
  by rewrite lookup_delete_eq.
Qed.

(** X12. The case [N = 1] through a handle: the constructor from a raw
    pointer is the retain, the destructor is the release that deletes; a
    new object held by one handle is deleted exactly once when the handle
    is destroyed, and the handle is gone. *)
Lemma handle_scope_destroys_once m0 h :
  exists o m,
    (o ← new_RefCounted; Retained_from h (Some o);; Retained_destroy h;; mret o) m0
      = Some (o, m) /\
    refCount o m = None /\ destroyed o m = 1%nat /\ refs m !! h = None.
Proof.
  destruct (new_RefCounted_fresh m0 _ _ eq_refl) as (_ & Hnd & _).
  eexists _, _. split.
  - erewrite bind_Some by reflexivity.
    erewrite bind_Some.
    2:{ unfold Retained_from. erewrite bind_Some; [reflexivity|].
        apply (retain_live _ 0). cbn [objs]. apply lookup_insert_eq. }
    erewrite bind_Some; [reflexivity|].
    unfold Retained_destroy, init_ref. cbn [objs refs trace].
    erewrite bind_Some.
    2:{ apply get_ref_holds. unfold holds. cbn [refs]. apply lookup_insert_eq. }
    erewrite bind_Some; [reflexivity|].
    rewrite (release_live _ (wrap32 (0 + 1))) by (cbn [objs]; apply lookup_insert_eq).
    reflexivity.
  - unfold refCount, destroyed in *. cbn [objs refs trace]. split_and!.
    + apply lookup_delete_eq.
    + rewrite filter_cons_True by done. rewrite !filter_cons_False by done.
      cbn [length]. by rewrite Hnd.
    + apply lookup_delete_eq.
Qed.

Lemma release_total p m : valid_ptr p m -> exists m1, release p m = Some (tt, m1).
Proof.
  destruct p as [o|]; [|by eexists]. intros [c Hc].
  rewrite (release_live o c) by done. destruct (_ <=? 0); by eexists.
Qed.

Lemma release_other p o m m1 :
  release p m = Some (tt, m1) -> p <> Some o ->
  refCount o m1 = refCount o m /\ destroyed o m1 = destroyed o m.
Proof.
  destruct p as [o'|]; unfold release, _release, mret, M_ret.
  - intros Hrel Hne. assert (o' <> o) by congruence.
    destruct (objs m !! o'); [|done].
    unfold refCount, destroyed.
    destruct (_ <=? 0); injection Hrel as <-; cbn [objs trace].
    + rewrite lookup_delete_ne by done.
      rewrite !filter_cons_False by congruence. done.
    + rewrite lookup_insert_ne by done.
      rewrite !filter_cons_False by congruence. done.
  - by intros [= <-] _.
Qed.

(** [operator=(Retained&&)] for two distinct handles: the release of the
    old pointer, then the two stores into [_ref]. *)
Lemma assign_move_run d s p q m m1 :
  d <> s -> holds d p m -> holds s q m ->
  release p m = Some (tt, m1) ->
  assign_move d s m =
    Some (tt, Mem (objs m1) (<[s := nullptr]> (<[d := q]> (refs m))) (trace m1)).
Proof.
  intros Hds Hd Hs Hrel.
  pose proof (release_refs _ _ _ _ Hrel) as Hr1.
  unfold assign_move.
  erewrite bind_Some.
  2:{ erewrite bind_Some by (by apply get_ref_holds). exact Hrel. }
  erewrite bind_Some.
  2:{ erewrite bind_Some.
      2:{ apply get_ref_holds. unfold holds in *. by rewrite Hr1. }
      apply (set_ref_holds d p). unfold holds in *. by rewrite Hr1. }
  rewrite (set_ref_holds s q); [by rewrite Hr1|].
  unfold holds in *. cbn [refs].
  rewrite lookup_insert_ne by done. by rewrite Hr1.
Qed.

Lemma release_released p m :
  valid_ptr p m ->
  exists m1, release p m = Some (tt, m1) /\ released p m m1 /\ refs m1 = refs m.
Proof.
  destruct p as [o|]; [|by eexists]. intros [c Hc].
  rewrite (release_live o c) by done. unfold released, refCount, destroyed.
  destruct (Z.leb_spec (wrap32 (c - 1)) 0) as [Hle|Hgt];
    (eexists; split; [reflexivity|]); cbn [objs refs trace];
    (split; [|reflexivity]); exists c; (split; [exact Hc|]); split.
  - intros o' Hne. rewrite lookup_delete_ne by done.
    by rewrite !filter_cons_False by congruence.
  - rewrite (proj2 (Z.leb_le _ _) Hle). split; [apply lookup_delete_eq|].
    rewrite filter_cons_True by done. by rewrite filter_cons_False.
  - intros o' Hne. rewrite lookup_insert_ne by done.
    by rewrite filter_cons_False by congruence.
  - rewrite (proj2 (Z.leb_gt _ _) Hgt).
    split; [apply lookup_insert_eq|]. by rewrite filter_cons_False.
Qed.

(** [released] looks at the objects and the trace only. *)
Lemma released_same_objects p m m1 m' :
  released p m m1 -> objs m' = objs m1 -> trace m' = trace m1 ->
  released p m m'.
Proof.
  unfold released, refCount, destroyed. intros H Ho Ht.
  rewrite Ho, Ht. exact H.
Qed.

(** C4 (as amended). Moving [s], which holds [o], into a different handle
    [d] runs no retain.  Move-construction leaves every object and the
    trace as they are.  Move-assignment releases the pointer [d] held
    before, whatever it is: its pointee is deleted when the decremented
    count is [<= 0] and keeps the decremented count otherwise, and when
    that pointer is not [o] itself the count and the deletions of [o] are
    untouched.  Either way [d] ends up holding [o] and [s] holding
    [nullptr].  The destructor releases the held pointer in the same way
    and removes the handle, and for [nullptr] only the handle goes. *)
Theorem move_transfers_ownership (m : mem) (d s : href) (o : loc) (p : ptr) :
  d <> s -> holds s (Some o) m -> valid_ptr p m ->
  (exists m', Retained_move d s m = Some (tt, m') /\
     objs m' = objs m /\ trace m' = trace m /\
     holds d (Some o) m' /\ holds s nullptr m') /\
  (holds d p m ->
   exists m', assign_move d s m = Some (tt, m') /\
     released p m m' /\
     holds d (Some o) m' /\ holds s nullptr m' /\
     (p <> Some o ->
        refCount o m' = refCount o m /\ destroyed o m' = destroyed o m)) /\
  (forall h, holds h p m ->
   exists m', Retained_destroy h m = Some (tt, m') /\
     released p m m' /\ refs m' = delete h (refs m)) /\
  (forall h, holds h nullptr m ->
     Retained_destroy h m = Some (tt, Mem (objs m) (delete h (refs m)) (trace m))).
Proof.
  intros Hds Hs Hp.
  destruct (release_released p m Hp) as (m1 & Hrel & Hspec & Hr1).
  split_and!.
  - eexists. split.
    + unfold Retained_move. erewrite bind_Some by (by apply get_ref_holds).
      erewrite bind_Some by reflexivity.
      apply (set_ref_holds s (Some o)). unfold holds in *. cbn [refs].
      by rewrite lookup_insert_ne.
    + unfold holds. cbn [objs refs trace]. split_and!; [done|done| |].
      * rewrite lookup_insert_ne by done. apply lookup_insert_eq.
      * apply lookup_insert_eq.
  - intros Hd. eexists. split.
    + by apply (assign_move_run d s p (Some o) m m1).
    + split; [by apply (released_same_objects p m m1)|].
      unfold holds. cbn [objs refs trace]. split_and!.
      * rewrite lookup_insert_ne by done. apply lookup_insert_eq.
      * apply lookup_insert_eq.
      * intros Hne. destruct (release_other p o m m1 Hrel Hne) as [H1 H2].
        split; [exact H1|exact H2].
  - intros h Hh. eexists. split.
    + unfold Retained_destroy.
      erewrite bind_Some by (by apply get_ref_holds).
      erewrite bind_Some by exact Hrel. reflexivity.
    + split; [by apply (released_same_objects p m m1)|].
      cbn [refs]. by rewrite Hr1.
  - intros h Hh. unfold Retained_destroy.
    erewrite bind_Some by (by apply get_ref_holds).
    erewrite bind_Some by reflexivity. reflexivity.
Qed.

Lemma move_transfers_ownership_witness :
  exists m',
    assign_move 7%positive 8%positive
      (Mem {[1%positive := 1; 2%positive := 1]}
           {[7%positive := Some 2%positive; 8%positive := Some 1%positive]} []) =
      Some (tt, m') /\
    holds 7%positive (Some 1%positive) m' /\ holds 8%positive nullptr m' /\
    refCount 1%positive m' = Some 1 /\
    refCount 2%positive m' = None /\ destroyed 2%positive m' = 1%nat.
Proof.
  destruct (move_transfers_ownership
              (Mem {[1%positive := 1; 2%positive := 1]}
                   {[7%positive := Some 2%positive; 8%positive := Some 1%positive]} [])
              7%positive 8%positive 1%positive (Some 2%positive))
    as (_ & Hassign & _).
  - discriminate.
  - reflexivity.
  - exists 1. reflexivity.
  - destruct (Hassign eq_refl) as (m' & Hrun & Hrel & Hd & Hs & Hcount).
    destruct Hrel as (c & Hc & _ & Hold).
    vm_compute in Hc. injection Hc as <-.
    change (wrap32 (1 - 1) <=? 0) with true in Hold. cbv iota in Hold.
    exists m'. split_and!; [exact Hrun|exact Hd|exact Hs| |exact (proj1 Hold)|exact (proj2 Hold)].
    destruct Hcount as [-> _]; [discriminate|reflexivity].
Defined.

(** C4 as stated fails when the target already holds the object: with
    handles [7] and [8] both holding object [1] at count [2], moving [8]
    into [7] releases the reference [7] had and the count becomes [1]. *)
Lemma move_between_aliases_drops_count :
  ~ move_keeps_count 7%positive 8%positive 1%positive aliased_store.
Proof.
  intros Hkeep.
  destruct (Hkeep eq_refl ltac:(by eexists)) as (m' & Hrun & _ & _ & Hcount).
  vm_compute in Hrun. injection Hrun as <-.
  vm_compute in Hcount. discriminate Hcount.
Qed.

(** X13. When [d] already holds [o] as well, its own reference is the one
    that is released: two handles become one and the count follows. *)
Remark move_assign_between_aliases (m : mem) (d s : href) (o : loc) (c : Z) :
  d <> s -> holds d (Some o) m -> holds s (Some o) m ->
  refCount o m = Some c -> 2 <= c <= INT32_MAX ->
  exists m', assign_move d s m = Some (tt, m') /\
    refCount o m' = Some (c - 1) /\
    holds d (Some o) m' /\ holds s nullptr m'.
Proof.
  intros Hds Hd Hs Hc Hrange.
  assert (Hw : wrap32 (c - 1) = c - 1).
  { apply wrap32_id. unfold in_int32, INT32_MIN, INT32_MAX in *. lia. }
  eexists. split.
  - apply (assign_move_run d s (Some o) (Some o)); [done..|].
    rewrite (release_live o c) by done. rewrite Hw.
    destruct (Z.leb_spec (c - 1) 0); [lia|]. reflexivity.
  - unfold refCount, holds. cbn [objs refs]. split_and!.
    + apply lookup_insert_eq.
    + rewrite lookup_insert_ne by done. apply lookup_insert_eq.
    + apply lookup_insert_eq.
Qed.

Lemma move_assign_between_aliases_witness :
  exists m',
    assign_move 7%positive 8%positive
      (Mem {[1%positive := 2]}
           {[7%positive := Some 1%positive; 8%positive := Some 1%positive]} []) =
      Some (tt, m') /\
    refCount 1%positive m' = Some 1.
Proof.
  destruct (move_assign_between_aliases
              (Mem {[1%positive := 2]}
                   {[7%positive := Some 1%positive; 8%positive := Some 1%positive]} [])
              7%positive 8%positive 1%positive 2)
    as (m' & Hrun & Hcount & _);
    [discriminate|reflexivity|reflexivity|reflexivity|unfold INT32_MAX; lia|].
  exists m'. split; [exact Hrun|exact Hcount].
Defined.

End RefCountedFacts.

(** ** The instance counter *)

Module InstanceCountedFacts.
Import InstanceCounted.

Lemma live_construct i w :
  i ∉ instances w -> live (construct i w) = live w + 1.
Proof.
  intros Hi. unfold live, construct. cbn [instances].
  rewrite size_union by set_solver. rewrite size_singleton. lia.
Qed.

Lemma live_destroy i w :
  i ∈ instances w -> live (destroy i w) = live w - 1.
Proof.
  intros Hi. unfold live, destroy. cbn [instances].
  rewrite size_difference by set_solver. rewrite size_singleton.
  assert (size (instances w) <> 0%nat).
  { intros H0. apply size_empty_inv in H0. set_solver. }
  lia.
Qed.

(** Constructions and destructions keep the counter in step with the
    number of live instances, in 32-bit arithmetic. *)
Lemma counter_tracks_without_copies l : forall w w',
  forallb (fun a => negb (is_copy a)) l = true ->
  run l w = Some w' ->
  wrap32 (gObjectCount w' - live w') = wrap32 (gObjectCount w - live w).
Proof.
  induction l as [|a l IH]; intros w w' Hl Hrun.
  - by injection Hrun as <-.
  - cbn [forallb] in Hl. apply andb_prop in Hl as [Ha Hl].
    cbn [run] in Hrun. destruct (step w a) as [w1|] eqn:Hstep; [|done].
    rewrite (IH _ _ Hl Hrun). clear IH Hrun Hl.
    destruct a as [i|i from|i]; [|done|]; cbn [step] in Hstep;
      case_decide; try done; injection Hstep as <-.
    + rewrite live_construct by done. cbn [construct gObjectCount].
      generalize (live w) (gObjectCount w). intros n g.
      rewrite wrap32_sub_l. f_equal. lia.
    + rewrite live_destroy by done. cbn [destroy gObjectCount].
      generalize (live w) (gObjectCount w). intros n g.
      rewrite wrap32_sub_l. f_equal. lia.
Qed.

(** C6, at the failing input. One instance made, one copy of it made, both
    destroyed: after the copy the counter is [1] with two instances alive,
    and at the end it is [-1] with none alive. *)
Theorem copy_unbalances_counter :
  let prog := [Construct 1; Copy 2 1; Destroy 2; Destroy 1] in
  (exists w, run (take 2 prog) (World 0 ∅) = Some w /\
     gObjectCount w = 1 /\ live w = 2) /\
  (exists w, run prog (World 0 ∅) = Some w /\
     gObjectCount w = -1 /\ live w = 0).
Proof.
  split; eexists; (split; [vm_compute; reflexivity|]); split; reflexivity.
Qed.

End InstanceCountedFacts.

(** ** The socket bridge *)

Module C4SocketFacts.
Import C4Socket.

(** C7. Converting a host address to the internal value and back gives
    the same address, component by component; the overload with a database
    name differs from the plain conversion in the path only, and that path
    comes from the name alone. *)
Theorem address_round_trip (path_of_database : string -> string)
    (A : C4Address) (remoteDatabaseName : string) :
  c4AddressFrom (addressFrom A) = A /\
  c4_scheme (c4AddressFrom (addressFrom A)) = c4_scheme A /\
  c4_hostname (c4AddressFrom (addressFrom A)) = c4_hostname A /\
  c4_port (c4AddressFrom (addressFrom A)) = c4_port A /\
  c4_path (c4AddressFrom (addressFrom A)) = c4_path A /\
  (let B := addressFrom_named path_of_database A remoteDatabaseName in
   scheme B = scheme (addressFrom A) /\
   hostname B = hostname (addressFrom A) /\
   port B = port (addressFrom A) /\
   dbname B = dbname (addressFrom A) /\
   path B = path_of_database remoteDatabaseName).
Proof. destruct A. cbn. split_and!; reflexivity. Qed.

(** The conversions are inverse in the other direction as well. *)
Lemma address_round_trip_internal (a : Address) :
  addressFrom (c4AddressFrom a) = a.
Proof. by destruct a. Qed.

Lemma validateFactory_ok f :
  validateFactory f = inr tt <->
  is_Some (open f) /\ is_Some (send f) /\
  is_Some (completedReceive f) /\ is_Some (close f).
Proof.
  unfold validateFactory.
  destruct (open f), (send f), (completedReceive f), (close f);
    split; try done; intros (H1 & H2 & H3 & H4);
    try (by destruct H1); try (by destruct H2);
    try (by destruct H3); by destruct H4.
Qed.

(** C8. A table with one of the four mandatory slots empty is refused
    with a configuration error and the registry is what it was, so the
    active table seen afterwards is the previous one, or the default when
    there was none; a complete table becomes the active one. *)
Theorem registerFactory_validates (dflt f : C4SocketFactory) (reg : registry) :
  (open f = None \/ send f = None \/ completedReceive f = None \/ close f = None ->
     registerFactory f reg = (inl ConfigurationError, reg) /\
     registeredFactory dflt (registerFactory f reg).2 = registeredFactory dflt reg) /\
  (is_Some (open f) /\ is_Some (send f) /\
   is_Some (completedReceive f) /\ is_Some (close f) ->
     registerFactory f reg = (inr tt, Some f) /\
     (registeredFactory dflt (registerFactory f reg).2).1 = f).
Proof.
  split.
  - intros Hmissing.
    assert (Hv : validateFactory f = inl ConfigurationError).
    { unfold validateFactory.
      destruct (open f), (send f), (completedReceive f), (close f);
        try reflexivity.
      destruct Hmissing as [?|[?|[?|?]]]; discriminate. }
    unfold registerFactory. rewrite Hv. done.
  - intros Hfull. apply validateFactory_ok in Hfull.
    unfold registerFactory. rewrite Hfull. done.
Qed.

Lemma registerFactory_validates_witness :
  registerFactory no_send_factory (Some full_factory) =
    (inl ConfigurationError, Some full_factory) /\
  registerFactory full_factory None = (inr tt, Some full_factory).
Proof.
  split.
  - apply (registerFactory_validates full_factory no_send_factory
             (Some full_factory)).
    right. left. reflexivity.
  - apply (registerFactory_validates full_factory full_factory None).
    split_and!; eexists; reflexivity.
Defined.

(** C9. The handle-taking [createWebSocket] makes a new object and binds
    it: the lookup of the token gives that object and no other, whatever
    the handle was bound to before; after [closeSocket] on the object the
    lookup gives nothing, and closing again changes nothing. *)
Theorem binding_lifecycle (st : provider) (factory : C4SocketFactory)
    (h : handle) (address : Address) (options : list (string * string)) :
  let tok := (createWebSocket_native factory h address options st).1 in
  let st1 := (createWebSocket_native factory h address options st).2 in
  exists w,
    sockets st !! w = None /\
    sockets st1 !! w = Some (mkWebSocket address options (Some h)) /\
    nativeHandle tok = h /\
    WebSocketFrom tok st1 = Some w /\
    (forall w', WebSocketFrom tok st1 = Some w' -> w' = w) /\
    WebSocketFrom tok (closeSocket w st1) = None /\
    closeSocket w (closeSocket w st1) = closeSocket w st1.
Proof.
  intros tok st1. exists (fresh (dom (sockets st))).
  set (w := fresh (dom (sockets st))).
  assert (Hfresh : sockets st !! w = None).
  { apply not_elem_of_dom. apply is_fresh. }
  assert (Hfrom : WebSocketFrom tok st1 = Some w).
  { unfold WebSocketFrom. cbn. apply lookup_insert_eq. }
  assert (Hclose : closeSocket w st1 =
            mkProvider (sockets st1) (delete h (bindings st1))
                       (CallClose h :: calls st1)).
  { unfold closeSocket. cbn [st1 createWebSocket_native snd sockets bindings].
    fold w. rewrite lookup_insert_eq. cbn [ws_handle].
    rewrite lookup_insert_eq. by rewrite decide_True. }
  split_and!.
  - exact Hfresh.
  - cbn. apply lookup_insert_eq.
  - reflexivity.
  - exact Hfrom.
  - intros w' Hw'. congruence.
  - rewrite Hclose. unfold WebSocketFrom. cbn. apply lookup_delete_eq.
  - rewrite Hclose. unfold closeSocket at 1.
    cbn [st1 createWebSocket_native snd sockets bindings]. fold w.
    rewrite lookup_insert_eq. cbn [ws_handle].
    rewrite lookup_delete_eq. by rewrite decide_False.
Qed.

Lemma binding_lifecycle_witness :
  exists w,
    WebSocketFrom
      (createWebSocket_native full_factory 5%positive example_address []
                              busy_provider).1
      (createWebSocket_native full_factory 5%positive example_address []
                              busy_provider).2
      = Some w /\
    w <> 1%positive.
Proof.
  destruct (binding_lifecycle busy_provider full_factory 5%positive
                              example_address [])
    as (w & Hnew & _ & _ & Hfrom & _).
  exists w. split; [exact Hfrom|].
  intros ->. vm_compute in Hnew. discriminate Hnew.
Defined.

End C4SocketFacts.

(** ** Ownership through handles *)

Module OwnershipFacts.
Import RefCounted.
Import RefCountedFacts.

(** *** Counting the handles that point to an object *)

Lemma count_refs_insert (rf : gmap href ptr) h p o :
  count_refs (<[h := p]> rf) o = count_refs (delete h rf) o + indicator p o.
Proof.
  unfold count_refs, indicator. destruct (decide (p = Some o)) as [Hp|Hp].
  - rewrite map_filter_insert_True by done.
    rewrite <- insert_delete_eq, <- map_filter_delete.
    rewrite map_size_insert_None; [lia|].
    rewrite map_filter_delete. apply lookup_delete_eq.
  - rewrite map_filter_insert_False by done. lia.
Qed.

Lemma count_refs_lookup (rf : gmap href ptr) h p o :
  rf !! h = Some p ->
  count_refs rf o = count_refs (delete h rf) o + indicator p o.
Proof.
  intros Hh. rewrite <- (insert_id rf h p Hh) at 1. apply count_refs_insert.
Qed.

Lemma count_refs_fresh (rf : gmap href ptr) h o :
  rf !! h = None -> count_refs (delete h rf) o = count_refs rf o.
Proof. intros Hh. by rewrite delete_id. Qed.

Lemma count_refs_nonneg (rf : gmap href ptr) o : 0 <= count_refs rf o.
Proof. unfold count_refs. lia. Qed.

Lemma count_refs_le_size (rf : gmap href ptr) o :
  count_refs rf o <= Z.of_nat (size rf).
Proof.
  unfold count_refs. apply inj_le, map_subseteq_size, map_filter_subseteq.
Qed.

Lemma count_refs_pos (rf : gmap href ptr) h o :
  rf !! h = Some (Some o) -> 1 <= count_refs rf o.
Proof.
  intros Hh. rewrite (count_refs_lookup rf h (Some o)) by done.
  pose proof (count_refs_nonneg (delete h rf) o).
  unfold indicator. rewrite decide_True by done. lia.
Qed.

Lemma indicator_null o : indicator nullptr o = 0.
Proof. reflexivity. Qed.

Lemma indicator_range p o : 0 <= indicator p o <= 1.
Proof. unfold indicator. case_decide; lia. Qed.

Lemma indicator_same o : indicator (Some o) o = 1.
Proof. unfold indicator. by rewrite decide_True. Qed.

Lemma indicator_other o o' : o <> o' -> indicator (Some o) o' = 0.
Proof. intros. unfold indicator. rewrite decide_False; congruence. Qed.

(** *** The primitive steps keep the books *)

(** Linear arithmetic, once the aliases of [positive] are out of the way
    (they hide equal terms from [lia]). *)
Ltac count_lia :=
  unfold href, loc, INT32_MAX, INT32_MIN in *; cbv beta in *; lia.

Lemma St_ext adj adj' rf m :
  (forall o, adj o = adj' o) -> St adj rf m -> St adj' rf m.
Proof.
  intros Heq (Hb & Hd & Hr). split_and!; [|done|done].
  intros o. specialize (Hb o). rewrite <- Heq. exact Hb.
Qed.

Lemma counted_St m : counted m /\ deleted_once m <-> St (fun _ => 0) (refs m) m.
Proof.
  unfold St, counted, balanced. split.
  - intros [Hc Hd]. split_and!; [|done|done].
    intros o. specialize (Hc o). destruct (objs m !! o); count_lia.
  - intros (Hb & Hd & _). split; [|done].
    intros o. specialize (Hb o). destruct (objs m !! o); count_lia.
Qed.

(** A step that deletes nothing and revives nothing. *)
Lemma deleted_once_same m m' :
  deleted_once m ->
  (forall o, destroyed o m' = destroyed o m) ->
  (forall o, alive o m' -> alive o m) ->
  deleted_once m'.
Proof.
  intros Hd Hsame Halive o. destruct (Hd o) as [H1 H2].
  rewrite Hsame. split; [done|]. intros Ha. by apply H2, Halive.
Qed.

Lemma triple_retain adj rf r :
  triple (fun m => St adj rf m /\ valid_ptr r m /\
                   forall o, r = Some o -> 0 <= count_refs rf o + adj o < INT32_MAX)
         (retain r)
         (fun r' m' => r' = r /\ St (fun o => adj o + indicator r o) rf m').
Proof.
  intros m ((Hb & Hd & Hr) & Hv & Hroom). destruct r as [o|].
  - destruct Hv as [c Hc]. specialize (Hroom o eq_refl).
    pose proof (Hb o) as Hbo. rewrite Hc in Hbo. unfold owners in Hbo.
    rewrite Hr in Hbo.
    eexists _, _. split; [by apply retain_live|]. split; [done|].
    assert (Hw : wrap32 (c + 1) = c + 1).
    { apply wrap32_id. unfold in_int32, INT32_MIN, INT32_MAX in *. lia. }
    rewrite Hw. split_and!; [|apply (deleted_once_same m); [done| |]|done].
    + intros o'. unfold owners. cbn [objs refs].
      destruct (decide (o' = o)) as [->|Hne].
      * rewrite lookup_insert_eq, indicator_same, Hr. lia.
      * rewrite lookup_insert_ne by done.
        rewrite indicator_other, Z.add_0_r by done. apply Hb.
    + intros o'. unfold destroyed. cbn [trace]. by rewrite filter_cons_False.
    + intros o'. unfold alive. cbn [objs].
      destruct (decide (o' = o)) as [->|Hne]; [by eexists|].
      by rewrite lookup_insert_ne.
  - eexists _, _. split; [reflexivity|]. split; [done|].
    apply (St_ext adj); [|done]. intros o. rewrite indicator_null. lia.
Qed.

Lemma triple_release adj rf p :
  triple (fun m => St adj rf m /\
                   forall o, p = Some o -> 1 <= count_refs rf o + adj o <= INT32_MAX)
         (release p)
         (fun _ m' => St (fun o => adj o - indicator p o) rf m').
Proof.
  intros m ((Hb & Hd & Hr) & Hheld). destruct p as [o|].
  - specialize (Hheld o eq_refl).
    pose proof (Hb o) as Hbo. unfold owners in Hbo. rewrite Hr in Hbo.
    destruct (objs m !! o) as [c|] eqn:Hc; [|lia].
    assert (Hw : wrap32 (c - 1) = c - 1).
    { apply wrap32_id. unfold in_int32, INT32_MIN, INT32_MAX in *. lia. }
    rewrite (release_live o c) by done. rewrite Hw.
    destruct (Z.leb_spec (c - 1) 0) as [Hle|Hgt].
    + eexists _, _. split; [reflexivity|]. split_and!; [| |done].
      * intros o'. unfold owners. cbn [objs refs].
        destruct (decide (o' = o)) as [->|Hne].
        -- rewrite lookup_delete_eq, indicator_same, Hr. lia.
        -- rewrite lookup_delete_ne by done.
           rewrite indicator_other, Z.sub_0_r by done. apply Hb.
      * intros o'. destruct (Hd o') as [H1 H2]. unfold destroyed, alive in *.
        cbn [objs trace]. destruct (decide (o' = o)) as [->|Hne].
        -- rewrite filter_cons_True by done. rewrite filter_cons_False by done.
           cbn [length]. rewrite H2 by (by eexists).
           split; [lia|]. rewrite lookup_delete_eq. by intros [? ?].
        -- rewrite !filter_cons_False by congruence.
           by rewrite lookup_delete_ne.
    + eexists _, _. split; [reflexivity|].
      split_and!; [|apply (deleted_once_same m); [done| |]|done].
      * intros o'. unfold owners. cbn [objs refs].
        destruct (decide (o' = o)) as [->|Hne].
        -- rewrite lookup_insert_eq, indicator_same, Hr. lia.
        -- rewrite lookup_insert_ne by done.
           rewrite indicator_other, Z.sub_0_r by done. apply Hb.
      * intros o'. unfold destroyed. cbn [trace]. by rewrite filter_cons_False.
      * intros o'. unfold alive. cbn [objs].
        destruct (decide (o' = o)) as [->|Hne]; [by eexists|].
        by rewrite lookup_insert_ne.
  - eexists _, _. split; [reflexivity|].
    apply (St_ext adj); [|done]. intros o. rewrite indicator_null. lia.
Qed.

Lemma triple_set_ref adj rf h p q :
  triple (fun m => St adj rf m /\ rf !! h = Some p)
         (set_ref h q)
         (fun _ m' => St (fun o => adj o + indicator p o - indicator q o)
                         (<[h := q]> rf) m').
Proof.
  intros m ((Hb & Hd & Hr) & Hh). subst rf.
  eexists _, _. split; [by apply (set_ref_holds h p)|].
  split_and!; [|by apply (deleted_once_same m)|done].
  intros o. unfold owners. cbn [objs refs].
  rewrite count_refs_insert. specialize (Hb o). unfold owners in Hb.
  rewrite (count_refs_lookup (refs m) h p) in Hb by done.
  destruct (objs m !! o); count_lia.
Qed.

Lemma triple_init_ref adj rf h q :
  triple (fun m => St adj rf m /\ rf !! h = None)
         (init_ref h q)
         (fun _ m' => St (fun o => adj o - indicator q o) (<[h := q]> rf) m').
Proof.
  intros m ((Hb & Hd & Hr) & Hh). subst rf.
  eexists _, _. split; [reflexivity|].
  split_and!; [|by apply (deleted_once_same m)|done].
  intros o. unfold owners. cbn [objs refs].
  rewrite count_refs_insert, count_refs_fresh by done.
  specialize (Hb o). unfold owners in Hb.
  destruct (objs m !! o); count_lia.
Qed.

Lemma triple_drop_ref adj rf h p :
  triple (fun m => St adj rf m /\ rf !! h = Some p)
         (drop_ref h)
         (fun _ m' => St (fun o => adj o + indicator p o) (delete h rf) m').
Proof.
  intros m ((Hb & Hd & Hr) & Hh). subst rf.
  eexists _, _. split; [reflexivity|].
  split_and!; [|by apply (deleted_once_same m)|done].
  intros o. unfold owners. cbn [objs refs]. cbv beta.
  specialize (Hb o). unfold owners in Hb.
  rewrite (count_refs_lookup (refs m) h p) in Hb by done.
  destruct (objs m !! o); count_lia.
Qed.

Lemma triple_new adj rf :
  triple (St adj rf) new_RefCounted
         (fun o m' => St adj rf m' /\ alive o m' /\ count_refs rf o + adj o = 0).
Proof.
  intros m (Hb & Hd & Hr).
  destruct (new_RefCounted_fresh m _ _ eq_refl) as (Hnone & Hnd & _).
  set (o := fresh (dom (objs m) ∪ deleted_locs m)) in *.
  assert (Hnet : count_refs rf o + adj o = 0).
  { pose proof (Hb o) as Hbo. rewrite Hnone in Hbo. unfold owners in Hbo.
    by rewrite Hr in Hbo. }
  eexists _, _. split; [reflexivity|]. fold o.
  split_and!; [split_and!; [| |done]| |done].
  - intros o'. unfold owners. cbn [objs refs].
    destruct (decide (o' = o)) as [->|Hne].
    + rewrite lookup_insert_eq, Hr. lia.
    + rewrite lookup_insert_ne by done. apply Hb.
  - intros o'. destruct (Hd o') as [H1 H2]. unfold alive in *.
    change (destroyed o' (Mem (<[o := 0]> (objs m)) (refs m) (trace m)))
      with (destroyed o' m). split; [done|]. cbn [objs].
    destruct (decide (o' = o)) as [->|Hne]; [done|].
    by rewrite lookup_insert_ne.
  - unfold alive. cbn [objs]. rewrite lookup_insert_eq. by eexists.
Qed.

(** *** Every handle operation keeps the books *)

Lemma St_final adj rf m :
  (forall o, adj o = 0) -> St adj rf m -> St (fun _ => 0) (refs m) m.
Proof.
  intros Hadj HSt. pose proof HSt as (_ & _ & Hr). rewrite Hr.
  by apply (St_ext adj).
Qed.

Lemma St_alive adj rf m o :
  St adj rf m -> count_refs rf o + adj o <> 0 -> alive o m.
Proof.
  intros (Hb & _ & Hr) Hne. specialize (Hb o). unfold owners, alive in *.
  rewrite Hr in Hb. destruct (objs m !! o); [by eexists|done].
Qed.

Lemma St_valid rf m h q :
  St (fun _ => 0) rf m -> rf !! h = Some q -> valid_ptr q m.
Proof.
  intros HSt Hh. destruct q as [o|]; [|done]. cbn [valid_ptr].
  apply (St_alive _ _ _ _ HSt).
  pose proof (count_refs_pos rf h o Hh). lia.
Qed.

Lemma St_get_ref adj rf m h p :
  St adj rf m -> rf !! h = Some p -> get_ref h m = Some (p, m).
Proof. intros (_ & _ & Hr) Hh. apply get_ref_holds. unfold holds. by rewrite Hr. Qed.

Section Room.
Variables (rf : gmap positive ptr).
Hypothesis Hfew : Z.of_nat (size rf) < INT32_MAX.

Lemma room_retain (r : ptr) :
  forall o, r = Some o -> 0 <= count_refs rf o + 0 < INT32_MAX.
Proof.
  intros o _. pose proof (count_refs_nonneg rf o).
  pose proof (count_refs_le_size rf o). count_lia.
Qed.

Lemma room_release h p (d : loc -> Z) :
  rf !! h = Some p -> (forall o, 0 <= d o <= 1) ->
  forall o, p = Some o -> 1 <= count_refs rf o + d o <= INT32_MAX.
Proof.
  intros Hh Hd o ->. pose proof (count_refs_pos rf h o Hh).
  pose proof (count_refs_le_size rf o). specialize (Hd o). count_lia.
Qed.

End Room.

(** The operation is over: what it held and what it owed cancel. *)
Ltac books_closed H :=
  eapply St_final; [|exact H];
  intros; cbv beta; rewrite ?indicator_null; lia.

Lemma assign_keeps rf m h p t :
  St (fun _ => 0) rf m -> Z.of_nat (size rf) < INT32_MAX ->
  rf !! h = Some p -> valid_ptr t m ->
  exists m', assign h t m = Some (tt, m') /\ St (fun _ => 0) (refs m') m'.
Proof.
  intros HSt Hfew Hh Hv.
  destruct (triple_retain _ rf t m (conj HSt (conj Hv (room_retain rf Hfew t))))
    as (r' & m1 & Hrun1 & -> & HSt1).
  assert (Hheld : forall o, p = Some o ->
            1 <= count_refs rf o + (0 + indicator t o) <= INT32_MAX).
  { apply (room_release rf Hfew h); [done|].
    intros o. pose proof (indicator_range t o). lia. }
  destruct (triple_release _ rf p m1 (conj HSt1 Hheld)) as ([] & m2 & Hrun2 & HSt2).
  destruct (triple_set_ref _ rf h p t m2 (conj HSt2 Hh)) as ([] & m3 & Hrun3 & HSt3).
  exists m3. split.
  - unfold assign. erewrite bind_Some by exact Hrun1.
    erewrite bind_Some; [exact Hrun3|].
    erewrite bind_Some by (eapply St_get_ref; eassumption). exact Hrun2.
  - books_closed HSt3.
Qed.

Lemma from_keeps rf m h t :
  St (fun _ => 0) rf m -> Z.of_nat (size rf) < INT32_MAX ->
  rf !! h = None -> valid_ptr t m ->
  exists m', Retained_from h t m = Some (tt, m') /\ St (fun _ => 0) (refs m') m'.
Proof.
  intros HSt Hfew Hh Hv.
  destruct (triple_retain _ rf t m (conj HSt (conj Hv (room_retain rf Hfew t))))
    as (r' & m1 & Hrun1 & -> & HSt1).
  destruct (triple_init_ref _ rf h t m1 (conj HSt1 Hh)) as ([] & m2 & Hrun2 & HSt2).
  exists m2. split.
  - unfold Retained_from. erewrite bind_Some by exact Hrun1. exact Hrun2.
  - books_closed HSt2.
Qed.

Lemma hop_keeps_St a m :
  St (fun _ => 0) (refs m) m -> hop_ok a m -> few_handles m ->
  exists m', run_hop a m = Some (tt, m') /\ St (fun _ => 0) (refs m') m'.
Proof.
  intros HSt Hok Hfew. unfold few_handles in Hfew.
  set (rf := refs m) in *.
  assert (Hown : forall h p, rf !! h = Some p ->
            forall o, p = Some o -> 1 <= count_refs rf o + 0 <= INT32_MAX).
  { intros h p Hp. apply (room_release rf Hfew h); [done|]. intros; lia. }
  destruct a as [h|h|h t|h r|h r|h|h t|h r|h r]; cbn [hop_ok run_hop] in *.
  - (* Retained() *)
    destruct (triple_init_ref _ rf h nullptr m (conj HSt Hok))
      as ([] & m1 & Hrun & HSt1).
    exists m1. split; [exact Hrun|].
    books_closed HSt1.
  - (* Retained<T> h = new T *)
    destruct (triple_new (fun _ => 0) rf m HSt) as (o & m1 & Hrun1 & HSt1 & Ha & _).
    destruct (from_keeps rf m1 h (Some o) HSt1 Hfew Hok Ha) as (m2 & Hrun2 & HSt2).
    exists m2. split; [|done]. erewrite bind_Some by exact Hrun1. exact Hrun2.
  - (* Retained(T *t) *)
    destruct Hok as [Hh Hv]. by apply (from_keeps rf).
  - (* Retained(const Retained &r) *)
    destruct Hok as [Hh [q Hq]].
    destruct (triple_retain _ rf q m
                (conj HSt (conj (St_valid rf m r q HSt Hq) (room_retain rf Hfew q))))
      as (r' & m1 & Hrun1 & -> & HSt1).
    destruct (triple_init_ref _ rf h q m1 (conj HSt1 Hh)) as ([] & m2 & Hrun2 & HSt2).
    exists m2. split.
    + unfold Retained_copy. erewrite bind_Some by (eapply St_get_ref; eassumption).
      erewrite bind_Some by exact Hrun1. exact Hrun2.
    + books_closed HSt2.
  - (* Retained(Retained &&r) *)
    destruct Hok as [Hh [q Hq]].
    assert (Hne : h <> r) by congruence.
    destruct (triple_init_ref _ rf h q m (conj HSt Hh)) as ([] & m1 & Hrun1 & HSt1).
    assert (Hq' : <[h := q]> rf !! r = Some q) by (by rewrite lookup_insert_ne).
    destruct (triple_set_ref _ _ r q nullptr m1 (conj HSt1 Hq'))
      as ([] & m2 & Hrun2 & HSt2).
    exists m2. split.
    + unfold Retained_move. erewrite bind_Some by (eapply St_get_ref; eassumption).
      erewrite bind_Some by exact Hrun1. exact Hrun2.
    + books_closed HSt2.
  - (* ~Retained() *)
    destruct Hok as [p Hp].
    destruct (triple_release _ rf p m (conj HSt (Hown h p Hp)))
      as ([] & m1 & Hrun1 & HSt1).
    destruct (triple_drop_ref _ rf h p m1 (conj HSt1 Hp)) as ([] & m2 & Hrun2 & HSt2).
    exists m2. split.
    + unfold Retained_destroy.
      erewrite bind_Some by (eapply St_get_ref; eassumption).
      erewrite bind_Some by exact Hrun1. exact Hrun2.
    + books_closed HSt2.
  - (* operator=(T *t) *)
    destruct Hok as [[p Hp] Hv]. by apply (assign_keeps rf m h p).
  - (* operator=(const Retained &r) *)
    destruct Hok as [[p Hp] [q Hq]].
    destruct (assign_keeps rf m h p q HSt Hfew Hp (St_valid rf m r q HSt Hq))
      as (m' & Hrun & HSt').
    exists m'. split; [|done]. unfold assign_copy.
    erewrite bind_Some by (eapply St_get_ref; eassumption). exact Hrun.
  - (* operator=(Retained &&r), r possibly the handle itself *)
    destruct Hok as [[p Hp] [q Hq]].
    destruct (triple_release _ rf p m (conj HSt (Hown h p Hp)))
      as ([] & m1 & Hrun1 & HSt1).
    destruct (triple_set_ref _ rf h p q m1 (conj HSt1 Hp)) as ([] & m2 & Hrun2 & HSt2).
    assert (Hq' : <[h := q]> rf !! r = Some q).
    { destruct (decide (h = r)) as [->|Hne];
        [apply lookup_insert_eq|by rewrite lookup_insert_ne]. }
    destruct (triple_set_ref _ _ r q nullptr m2 (conj HSt2 Hq'))
      as ([] & m3 & Hrun3 & HSt3).
    exists m3. split.
    + unfold assign_move.
      erewrite bind_Some.
      2:{ erewrite bind_Some by (eapply St_get_ref; eassumption). exact Hrun1. }
      erewrite bind_Some; [exact Hrun3|].
      erewrite bind_Some by (eapply St_get_ref; eassumption). exact Hrun2.
    + books_closed HSt3.
Qed.

Lemma St_empty : St (fun _ => 0) (refs empty_mem) empty_mem.
Proof.
  split_and!; [| |done].
  - intros o. unfold owners, count_refs. cbn [objs refs empty_mem].
    rewrite lookup_empty, map_filter_empty, map_size_empty. lia.
  - intros o. unfold destroyed, alive. cbn. split; [lia|done].
Qed.

Lemma reachable_St m : reachable m -> St (fun _ => 0) (refs m) m.
Proof.
  induction 1 as [|m a m' _ IH Hok Hfew Hrun]; [apply St_empty|].
  destruct (hop_keeps_St a m IH Hok Hfew) as (m'' & Hrun' & HSt).
  congruence.
Qed.

Lemma one_handle_reachable : reachable one_handle.
Proof.
  apply (reach_step empty_mem (HNew 7%positive)).
  - apply reach_start.
  - reflexivity.
  - by vm_compute.
  - by vm_compute.
Qed.

(** X1. A handle operation on valid operands, in a store where every count
    is the number of handles holding the object and nothing was deleted
    twice, is defined and leads to such a store again, as long as there are
    fewer than [INT32_MAX] handles. *)
Theorem handle_operation_keeps_counts (a : hop) (m : mem) :
  counted m -> deleted_once m -> hop_ok a m -> few_handles m ->
  exists m', run_hop a m = Some (tt, m') /\ counted m' /\ deleted_once m'.
Proof.
  intros Hc Hd Hok Hfew.
  destruct (hop_keeps_St a m) as (m' & Hrun & HSt); [|done|done|].
  { by apply counted_St. }
  exists m'. split; [done|]. by apply counted_St.
Qed.

Lemma handle_operation_keeps_counts_witness :
  exists m', run_hop (HAssignMove 7%positive 7%positive) one_handle = Some (tt, m') /\
             counted m' /\ deleted_once m'.
Proof.
  apply (handle_operation_keeps_counts (HAssignMove 7%positive 7%positive) one_handle).
  - apply (proj2 (counted_St one_handle)), reachable_St, one_handle_reachable.
  - apply (proj2 (counted_St one_handle)), reachable_St, one_handle_reachable.
  - split; eexists; reflexivity.
  - by vm_compute.
Defined.

(** X2. In every store a program reaches from the empty one by handle
    operations, the count of each live object is the number of handles
    that hold it (zero for one that no handle holds), every handle points
    to a live object whose count is at least one, and no object was
    deleted twice. *)
Theorem reachable_counted (m : mem) :
  reachable m ->
  counted m /\ deleted_once m /\
  (forall h o, holds h (Some o) m ->
     exists c, refCount o m = Some c /\ 1 <= c /\ c = owners o m).
Proof.
  intros Hreach. pose proof (reachable_St m Hreach) as HSt.
  destruct (proj2 (counted_St m) HSt) as [Hc Hd]. split_and!; [done|done|].
  intros h o Hh. pose proof (count_refs_pos (refs m) h o Hh) as Hpos.
  specialize (Hc o). unfold refCount, owners in *.
  destruct (objs m !! o) as [c|]; [|lia]. exists c. split_and!; [done|lia|done].
Qed.

Lemma reachable_counted_witness :
  counted one_handle /\ deleted_once one_handle /\
  (forall h o, holds h (Some o) one_handle ->
     exists c, refCount o one_handle = Some c /\ 1 <= c /\ c = owners o one_handle).
Proof. apply (reachable_counted one_handle), one_handle_reachable. Defined.

(** X3. With counts that match the handles, destroying a handle that
    holds [o] deletes [o] exactly when it was the only handle holding it;
    otherwise [o] stays, with one reference fewer. *)
Theorem last_handle_deletes (m : mem) (h : href) (o : loc) :
  counted m -> few_handles m -> holds h (Some o) m ->
  exists m', Retained_destroy h m = Some (tt, m') /\
    refs m' = delete h (refs m) /\
    (owners o m = 1 ->
       refCount o m' = None /\ destroyed o m' = S (destroyed o m)) /\
    (1 < owners o m ->
       refCount o m' = Some (owners o m - 1) /\
       destroyed o m' = destroyed o m).
Proof.
  intros Hc Hfew Hh. unfold few_handles in Hfew.
  pose proof (count_refs_pos (refs m) h o Hh) as Hpos.
  pose proof (count_refs_le_size (refs m) o) as Hle.
  specialize (Hc o). unfold owners in *.
  destruct (objs m !! o) as [c|] eqn:Hobj; [subst c|lia].
  set (c := count_refs (refs m) o) in *.
  assert (Hrange : 1 <= c < INT32_MAX) by count_lia.
  clearbody c. clear Hpos Hle Hfew.
  assert (Hw : wrap32 (c - 1) = c - 1).
  { apply wrap32_id. unfold in_int32, INT32_MIN, INT32_MAX in *. lia. }
  unfold Retained_destroy. erewrite bind_Some by (by apply get_ref_holds).
  rewrite (bind_Some _ _ _ tt
             (if c - 1 <=? 0
              then Mem (delete o (objs m)) (refs m) (Delete o :: Release o :: trace m)
              else Mem (<[o := c - 1]> (objs m)) (refs m) (Release o :: trace m))).
  2:{ rewrite (release_live o c) by done. rewrite Hw. by destruct (_ <=? 0). }
  unfold drop_ref, refCount, destroyed.
  destruct (Z.leb_spec (c - 1) 0) as [Hone|Hmore]; cbn [objs refs trace];
    (eexists; split; [reflexivity|]); cbn [objs refs trace];
    (split; [reflexivity|]); (split; [intros Hown|intros Hown; try lia]).
  - split; [apply lookup_delete_eq|].
    rewrite filter_cons_True by done. by rewrite filter_cons_False.
  - lia.
  - split; [apply lookup_insert_eq|]. by rewrite filter_cons_False.
Qed.

Lemma last_handle_deletes_witness :
  exists m', Retained_destroy 7%positive one_handle = Some (tt, m') /\
             refCount 1%positive m' = None.
Proof.
  destruct (last_handle_deletes one_handle 7%positive 1%positive)
    as (m' & Hrun & _ & Hlast & _).
  - apply (proj2 (counted_St one_handle)), reachable_St, one_handle_reachable.
  - by vm_compute.
  - reflexivity.
  - exists m'. split; [exact Hrun|]. apply Hlast. by vm_compute.
Defined.

End OwnershipFacts.

(** ** More on handles and counts *)

Module HandleFacts.
Import RefCounted.
Import RefCountedFacts.

(** X4. Move-assigning a handle to itself is not a no-op: the held object
    is released (and deleted when the decremented count is [<= 0]) and the
    handle ends up holding [nullptr]. *)
Theorem self_move_assignment_releases (m : mem) (h : href) (o : loc) (c : Z) :
  holds h (Some o) m -> refCount o m = Some c ->
  exists m', assign_move h h m = Some (tt, m') /\
    holds h nullptr m' /\
    (wrap32 (c - 1) <= 0 ->
       refCount o m' = None /\ destroyed o m' = S (destroyed o m)) /\
    (0 < wrap32 (c - 1) ->
       refCount o m' = Some (wrap32 (c - 1)) /\ destroyed o m' = destroyed o m).
Proof.
  intros Hh Hc. unfold refCount in Hc.
  destruct (release_total (Some o) m) as [m1 Hrel]; [by exists c|].
  pose proof (release_refs _ _ _ _ Hrel) as Hr1.
  assert (Hh1 : holds h (Some o) m1) by (unfold holds in *; by rewrite Hr1).
  eexists. split.
  - unfold assign_move.
    erewrite bind_Some.
    2:{ erewrite bind_Some by (by apply get_ref_holds). exact Hrel. }
    erewrite bind_Some.
    2:{ erewrite bind_Some by (by apply get_ref_holds).
        by apply (set_ref_holds h (Some o)). }
    apply (set_ref_holds h (Some o)). unfold holds. cbn [refs].
    apply lookup_insert_eq.
  - unfold holds, refCount, destroyed. cbn [objs refs trace].
    split; [apply lookup_insert_eq|].
    rewrite (release_live o c) in Hrel by done.
    destruct (Z.leb_spec (wrap32 (c - 1)) 0) as [Hle|Hgt];
      injection Hrel as <-; cbn [objs trace];
      (split; [intros Hle'|intros Hgt']); try lia.
    + split; [apply lookup_delete_eq|].
      rewrite filter_cons_True by done. by rewrite filter_cons_False.
    + split; [apply lookup_insert_eq|]. by rewrite filter_cons_False.
Qed.

Lemma self_move_assignment_releases_witness :
  exists m', assign_move 7%positive 7%positive one_handle = Some (tt, m') /\
             holds 7%positive nullptr m' /\ refCount 1%positive m' = None.
Proof.
  destruct (self_move_assignment_releases one_handle 7%positive 1%positive 1)
    as (m' & Hrun & Hnull & Hdel & _); [reflexivity|reflexivity|].
  exists m'. split_and!; [exact Hrun|exact Hnull|].
  apply Hdel. by vm_compute.
Defined.

(** X5. Constructing a handle from a raw pointer retains it: the handle
    holds the pointer, a live pointee below [INT32_MAX] has one reference
    more, no other count changes and nothing is deleted; from [nullptr]
    the constructor does what the default constructor does. *)
Theorem construct_from_pointer (m : mem) (h : href) (t : ptr) :
  valid_ptr t m ->
  (forall o c, t = Some o -> refCount o m = Some c -> INT32_MIN <= c < INT32_MAX) ->
  exists m', Retained_from h t m = Some (tt, m') /\
    holds h t m' /\
    (forall o c, t = Some o -> refCount o m = Some c ->
       refCount o m' = Some (c + 1)) /\
    (forall o, t <> Some o -> refCount o m' = refCount o m) /\
    (forall o, destroyed o m' = destroyed o m) /\
    (t = nullptr -> Retained_from h t m = Retained_default h m).
Proof.
  intros Hv Hrange. destruct t as [o|].
  - destruct Hv as [c Hc]. specialize (Hrange o c eq_refl Hc).
    assert (Hw : wrap32 (c + 1) = c + 1).
    { apply wrap32_id. unfold in_int32, INT32_MIN, INT32_MAX in *. lia. }
    eexists. split.
    + unfold Retained_from. erewrite bind_Some by (by apply (retain_live o c)).
      reflexivity.
    + unfold holds, refCount, destroyed in *. cbn [objs refs trace].
      split_and!.
      * apply lookup_insert_eq.
      * intros o' c' [= <-] Hc'. rewrite lookup_insert_eq, Hw. congruence.
      * intros o' Hne. rewrite lookup_insert_ne; [done|congruence].
      * intros o'. by rewrite filter_cons_False.
      * discriminate.
  - eexists. split; [reflexivity|].
    unfold holds, refCount. cbn [objs refs trace].
    split_and!; [apply lookup_insert_eq|discriminate|done|done|done].
Qed.

Lemma construct_from_pointer_witness :
  exists m', Retained_from 8%positive (Some 1%positive) one_handle = Some (tt, m') /\
             holds 8%positive (Some 1%positive) m' /\
             refCount 1%positive m' = Some 2.
Proof.
  destruct (construct_from_pointer one_handle 8%positive (Some 1%positive))
    as (m' & Hrun & Hh & Hcount & _).
  - exists 1. reflexivity.
  - intros o c [= <-] Hc. vm_compute in Hc. injection Hc as <-.
    unfold INT32_MIN, INT32_MAX. lia.
  - exists m'. split_and!; [exact Hrun|exact Hh|].
    apply (Hcount 1%positive 1); reflexivity.
Defined.

(** X6. Copy-constructing a handle from one that holds [o] and then
    destroying the copy gives back the objects, the counts and the handles
    there were, and deletes nothing. *)
Theorem copy_then_destroy_restores (m : mem) (h r : href) (o : loc) (c : Z) :
  holds r (Some o) m -> refs m !! h = None ->
  refCount o m = Some c -> 1 <= c <= INT32_MAX ->
  exists m', (Retained_copy h r;; Retained_destroy h) m = Some (tt, m') /\
    objs m' = objs m /\ refs m' = refs m /\
    (forall o', destroyed o' m' = destroyed o' m).
Proof.
  intros Hr Hh Hc Hrange. unfold refCount in Hc.
  assert (Hin : in_int32 c) by (unfold in_int32, INT32_MIN, INT32_MAX in *; lia).
  eexists. split.
  - erewrite bind_Some.
    2:{ unfold Retained_copy. erewrite bind_Some by (by apply get_ref_holds).
        erewrite bind_Some by (by apply (retain_live o c)). reflexivity. }
    unfold Retained_destroy.
    erewrite bind_Some.
    2:{ apply get_ref_holds. unfold holds. cbn [refs]. apply lookup_insert_eq. }
    erewrite bind_Some; [reflexivity|].
    rewrite (release_live o (wrap32 (c + 1))) by (cbn [objs]; apply lookup_insert_eq).
    rewrite wrap32_succ_pred by done.
    destruct (Z.leb_spec c 0); [lia|]. reflexivity.
  - unfold destroyed. cbn [objs refs trace]. split_and!.
    + rewrite insert_insert_eq. by apply insert_id.
    + rewrite delete_insert_eq. by apply delete_id.
    + intros o'. by rewrite !filter_cons_False.
Qed.

Lemma copy_then_destroy_restores_witness :
  exists m', (Retained_copy 8%positive 7%positive;; Retained_destroy 8%positive)
               one_handle = Some (tt, m') /\
             objs m' = objs one_handle /\ refs m' = refs one_handle.
Proof.
  destruct (copy_then_destroy_restores one_handle 8%positive 7%positive 1%positive 1)
    as (m' & Hrun & Hobjs & Hrefs & _);
    [reflexivity|reflexivity|reflexivity|unfold INT32_MAX; lia|].
  exists m'. split_and!; [exact Hrun|exact Hobjs|exact Hrefs].
Defined.

(** X7. After a handle is move-constructed from [s], destroying [s]
    touches no object: the new handle holds the object, the counts and the
    trace are what they were before the move. *)
Theorem moved_from_handle_owns_nothing (m : mem) (d s : href) (p : ptr) :
  holds s p m -> refs m !! d = None ->
  exists m', (Retained_move d s;; Retained_destroy s) m = Some (tt, m') /\
    holds d p m' /\ refs m' !! s = None /\
    objs m' = objs m /\ trace m' = trace m.
Proof.
  intros Hs Hd. assert (Hne : d <> s) by (unfold holds in Hs; congruence).
  eexists. split.
  - erewrite bind_Some.
    2:{ unfold Retained_move. erewrite bind_Some by (by apply get_ref_holds).
        erewrite bind_Some by reflexivity.
        apply (set_ref_holds s p). unfold holds in *. cbn [refs].
        by rewrite lookup_insert_ne. }
    unfold Retained_destroy.
    erewrite bind_Some.
    2:{ apply get_ref_holds. unfold holds. cbn [refs]. apply lookup_insert_eq. }
    erewrite bind_Some by reflexivity. reflexivity.
  - unfold holds. cbn [objs refs trace]. split_and!; [| |done|done].
    + rewrite lookup_delete_ne by done. rewrite lookup_insert_ne by done.
      apply lookup_insert_eq.
    + apply lookup_delete_eq.
Qed.

Lemma moved_from_handle_owns_nothing_witness :
  exists m', (Retained_move 8%positive 7%positive;; Retained_destroy 7%positive)
               one_handle = Some (tt, m') /\
             holds 8%positive (Some 1%positive) m' /\
             objs m' = objs one_handle.
Proof.
  destruct (moved_from_handle_owns_nothing one_handle 8%positive 7%positive
              (Some 1%positive))
    as (m' & Hrun & Hd & _ & Hobjs & _); [reflexivity|reflexivity|].
  exists m'. split_and!; [exact Hrun|exact Hd|exact Hobjs].
Defined.

(** X8. Assigning a pointer other than the held one to a handle retains
    the new pointee (one reference more) and releases the old one, which is
    deleted when its decremented count is [<= 0] and keeps the decremented
    count otherwise; the handle holds the new pointer. *)
Theorem assign_swaps_references (m : mem) (h : href) (o1 : loc) (c1 : Z) (t : ptr) :
  holds h (Some o1) m -> refCount o1 m = Some c1 ->
  t <> Some o1 -> valid_ptr t m ->
  (forall o c, t = Some o -> refCount o m = Some c -> INT32_MIN <= c < INT32_MAX) ->
  exists m', assign h t m = Some (tt, m') /\
    holds h t m' /\
    (forall o c, t = Some o -> refCount o m = Some c ->
       refCount o m' = Some (c + 1)) /\
    (wrap32 (c1 - 1) <= 0 ->
       refCount o1 m' = None /\ destroyed o1 m' = S (destroyed o1 m)) /\
    (0 < wrap32 (c1 - 1) ->
       refCount o1 m' = Some (wrap32 (c1 - 1)) /\
       destroyed o1 m' = destroyed o1 m).
Proof.
  intros Hh Hc1 Hne Hv Hrange. unfold refCount in Hc1.
  assert (Hret : exists m1, retain t m = Some (t, m1) /\
            objs m1 !! o1 = Some c1 /\
            destroyed o1 m1 = destroyed o1 m /\
            (forall o c, t = Some o -> refCount o m = Some c ->
               objs m1 !! o = Some (c + 1))).
  { destruct t as [o2|].
    - destruct Hv as [c2 Hc2]. specialize (Hrange o2 c2 eq_refl Hc2).
      assert (Hw : wrap32 (c2 + 1) = c2 + 1).
      { apply wrap32_id. unfold in_int32, INT32_MIN, INT32_MAX in *. lia. }
      eexists. split; [by apply (retain_live o2 c2)|].
      unfold destroyed, refCount. cbn [objs trace]. split_and!.
      + rewrite lookup_insert_ne; [done|congruence].
      + by rewrite filter_cons_False.
      + intros o c [= <-] Hc. rewrite lookup_insert_eq, Hw. congruence.
    - exists m. split_and!; [reflexivity|done|done|discriminate]. }
  destruct Hret as (m1 & Hrun1 & Hc1' & Hd1 & Hnew).
  destruct (release_total (Some o1) m1) as [m2 Hrun2]; [by exists c1|].
  exists (Mem (objs m2) (<[h := t]> (refs m)) (trace m2)).
  split; [by apply (assign_run h (Some o1) t m m1 m2)|].
  unfold holds, refCount, destroyed in *. cbn [objs refs trace].
  split; [apply lookup_insert_eq|].
  rewrite (release_live o1 c1) in Hrun2 by done.
  assert (Hkeep : forall o, o <> o1 -> objs m2 !! o = objs m1 !! o).
  { intros o Ho. destruct (_ <=? 0); injection Hrun2 as <-; cbn [objs];
      [by rewrite lookup_delete_ne|by rewrite lookup_insert_ne]. }
  split.
  { intros o c -> Hc. rewrite Hkeep by congruence. by apply Hnew. }
  destruct (Z.leb_spec (wrap32 (c1 - 1)) 0) as [Hle|Hgt];
    injection Hrun2 as <-; cbn [objs trace];
    (split; [intros Hle'|intros Hgt']); try lia.
  - split; [apply lookup_delete_eq|].
    rewrite filter_cons_True by done. rewrite filter_cons_False by done.
    cbn [length]. by rewrite Hd1.
  - split; [apply lookup_insert_eq|]. by rewrite filter_cons_False.
Qed.

Lemma assign_swaps_references_witness :
  exists m', assign 7%positive nullptr one_handle = Some (tt, m') /\
             holds 7%positive nullptr m' /\ refCount 1%positive m' = None.
Proof.
  destruct (assign_swaps_references one_handle 7%positive 1%positive 1 nullptr)
    as (m' & Hrun & Hh & _ & Hdel & _);
    [reflexivity|reflexivity|discriminate|exact I|discriminate|].
  exists m'. split_and!; [exact Hrun|exact Hh|].
  apply Hdel. by vm_compute.
Defined.

(** X9. After [n] retains and [k < n] releases of a new object, with
    [n <= INT32_MAX], [refCount()] returns [n - k]. *)
Theorem refCount_after_retains_releases (m0 : mem) (n k : N) :
  (k < n)%N -> Z.of_N n <= INT32_MAX ->
  exists o m, retains_then_releases n k m0 = Some (o, m) /\
    refCount o m = Some (Z.of_N n - Z.of_N k).
Proof.
  intros Hk Hn. eexists _, _. rewrite retains_then_releases_unfold.
  erewrite bind_Some by (apply fewer_releases; unfold INT32_MAX in *; lia).
  split; [reflexivity|]. unfold refCount. cbn [objs].
  rewrite lookup_insert_eq, wrap32_id; [done|].
  unfold in_int32, INT32_MIN, INT32_MAX in *. lia.
Qed.

Lemma refCount_after_retains_releases_witness :
  exists o m, retains_then_releases 5 2 empty_mem = Some (o, m) /\
    refCount o m = Some 3.
Proof.
  apply (refCount_after_retains_releases empty_mem 5 2);
    [lia|unfold INT32_MAX; lia].
Defined.

(** X10. Retains and releases of a live object in any order, as long as
    the count stays between [1] and [INT32_MAX]: all are defined, nothing
    is deleted, the final count is the initial one plus the retains minus
    the releases, and no other object and no handle changes. *)
Theorem balanced_operations_add_up (o : loc) (l : list bool) :
  forall (m : mem) (c : Z),
  refCount o m = Some c -> 1 <= c <= INT32_MAX -> stays_positive c l ->
  exists m', run_ops o l m = Some (tt, m') /\
    refCount o m' = Some (count_after c l) /\
    destroyed o m' = destroyed o m /\
    (forall o', o' <> o -> refCount o' m' = refCount o' m) /\
    refs m' = refs m.
Proof.
  induction l as [|b l IH]; intros m c Hc Hrange Hpos.
  - exists m. by split_and!.
  - unfold refCount in Hc. destruct b; cbn [run_ops stays_positive count_after] in *.
    + destruct Hpos as [Hroom Hpos].
      assert (Hw : wrap32 (c + 1) = c + 1).
      { apply wrap32_id. unfold in_int32, INT32_MIN, INT32_MAX in *. lia. }
      erewrite bind_Some by (by apply (retain_live o c)). rewrite Hw.
      destruct (IH (Mem (<[o := c + 1]> (objs m)) (refs m) (Retain o :: trace m))
                  (c + 1))
        as (m' & Hrun & Hcount & Hdel & Hothers & Hrefs); [|lia|exact Hpos|].
      { unfold refCount. cbn [objs]. apply lookup_insert_eq. }
      exists m'. split_and!; [exact Hrun|exact Hcount| | |exact Hrefs].
      * rewrite Hdel. unfold destroyed. cbn [trace]. by rewrite filter_cons_False.
      * intros o' Hne. rewrite Hothers by done. unfold refCount. cbn [objs].
        by rewrite lookup_insert_ne.
    + destruct Hpos as [Hstay Hpos].
      assert (Hw : wrap32 (c - 1) = c - 1).
      { apply wrap32_id. unfold in_int32, INT32_MIN, INT32_MAX in *. lia. }
      erewrite bind_Some.
      2:{ rewrite (release_live o c) by done. rewrite Hw.
          destruct (Z.leb_spec (c - 1) 0); [lia|]. reflexivity. }
      destruct (IH (Mem (<[o := c - 1]> (objs m)) (refs m) (Release o :: trace m))
                  (c - 1))
        as (m' & Hrun & Hcount & Hdel & Hothers & Hrefs); [|lia|exact Hpos|].
      { unfold refCount. cbn [objs]. apply lookup_insert_eq. }
      exists m'. split_and!; [exact Hrun|exact Hcount| | |exact Hrefs].
      * rewrite Hdel. unfold destroyed. cbn [trace]. by rewrite filter_cons_False.
      * intros o' Hne. rewrite Hothers by done. unfold refCount. cbn [objs].
        by rewrite lookup_insert_ne.
Qed.

Lemma balanced_operations_add_up_witness :
  exists m', run_ops 1%positive [true; false; true; true; false] one_handle
               = Some (tt, m') /\
             refCount 1%positive m' = Some 2.
Proof.
  destruct (balanced_operations_add_up 1%positive
              [true; false; true; true; false] one_handle 1)
    as (m' & Hrun & Hcount & _).
  - reflexivity.
  - unfold INT32_MAX. lia.
  - cbn. unfold INT32_MAX. lia.
  - exists m'. split; [exact Hrun|exact Hcount].
Defined.

Lemma retain_keeps_alive r p m m1 :
  retain r m = Some (r, m1) -> valid_ptr p m -> valid_ptr p m1.
Proof.
  intros Hret Hv. destruct p as [o|]; [|done]. cbn [valid_ptr] in *.
  destruct r as [o'|]; [|by injection Hret as <-].
  unfold retain, mbind, M_bind, _retain in Hret.
  destruct (objs m !! o') eqn:Ho'; [|done]. injection Hret as <-.
  unfold alive in *. cbn [objs].
  destruct (decide (o = o')) as [->|Hne];
    [rewrite lookup_insert_eq; by eexists|by rewrite lookup_insert_ne].
Qed.

(** X14. [get()] (and the conversions to [T*]) returns the pointer the
    handle was last assigned and takes no reference of its own: the store
    after [h = t; h.get()] is the store after [h = t]. *)
Theorem get_returns_assigned (m : mem) (h : href) (p t : ptr) :
  holds h p m -> valid_ptr p m -> valid_ptr t m ->
  exists m', assign h t m = Some (tt, m') /\
             (assign h t;; get h) m = Some (t, m').
Proof.
  intros Hh Hp Ht.
  assert (Hret : exists m1, retain t m = Some (t, m1)).
  { destruct t as [o|]; [|by eexists]. destruct Ht as [c Hc].
    eexists. by apply (retain_live o c). }
  destruct Hret as [m1 Hrun1].
  destruct (release_total p m1) as [m2 Hrun2].
  { by apply (retain_keeps_alive t p m). }
  pose proof (assign_run h p t m m1 m2 Hh Hrun1 Hrun2) as Hrun.
  eexists. split; [exact Hrun|].
  erewrite bind_Some by exact Hrun.
  apply get_ref_holds. unfold holds. cbn [refs]. apply lookup_insert_eq.
Qed.

Lemma get_returns_assigned_witness :
  exists m', (assign 7%positive nullptr;; get 7%positive) one_handle
               = Some (nullptr, m').
Proof.
  destruct (get_returns_assigned one_handle 7%positive (Some 1%positive) nullptr)
    as (m' & _ & Hget); [reflexivity|by exists 1|exact I|].
  exists m'. exact Hget.
Defined.

End HandleFacts.

(** ** The instance counter over whole programs *)

Module InstanceCounterFacts.
Import InstanceCounted.

Lemma live_copy_construct i w :
  i ∉ instances w -> live (copy_construct i w) = live w + 1.
Proof.
  intros Hi. unfold live, copy_construct. cbn [instances].
  rewrite size_union by set_solver. rewrite size_singleton. lia.
Qed.

Lemma copies_cons a l :
  copies (a :: l) = copies l + (if is_copy a then 1 else 0).
Proof.
  unfold copies. destruct (is_copy a) eqn:Ha.
  - rewrite filter_cons_True by done. cbn [length]. lia.
  - rewrite filter_cons_False by (rewrite Ha; discriminate). lia.
Qed.

(** Each copy puts the counter one further behind the live instances. *)
Lemma counter_gap l : forall w w',
  run l w = Some w' ->
  wrap32 (gObjectCount w' - live w' + copies l) = wrap32 (gObjectCount w - live w).
Proof.
  induction l as [|a l IH]; intros w w' Hrun.
  - injection Hrun as <-. unfold copies. cbn. f_equal. lia.
  - cbn [run] in Hrun. destruct (step w a) as [w1|] eqn:Hstep; [|done].
    specialize (IH _ _ Hrun). rewrite copies_cons.
    destruct a as [i|i from|i]; cbn [step is_copy] in *;
      case_decide; try done; injection Hstep as <-.
    + rewrite Z.add_0_r, IH.
      rewrite InstanceCountedFacts.live_construct by done.
      cbn [construct gObjectCount].
      generalize (live w) (gObjectCount w). intros n g.
      rewrite wrap32_sub_l. f_equal. lia.
    + replace (gObjectCount w' - live w' + (copies l + 1))
        with ((gObjectCount w' - live w' + copies l) + 1) by lia.
      rewrite <- wrap32_add_l, IH, wrap32_add_l.
      rewrite live_copy_construct by tauto. cbn [copy_construct gObjectCount].
      f_equal. lia.
    + rewrite Z.add_0_r, IH.
      rewrite InstanceCountedFacts.live_destroy by done.
      cbn [destroy gObjectCount].
      generalize (live w) (gObjectCount w). intros n g.
      rewrite wrap32_sub_l. f_equal. lia.
Qed.

Lemma counter_in_range l : forall w w',
  in_int32 (gObjectCount w) -> run l w = Some w' -> in_int32 (gObjectCount w').
Proof.
  induction l as [|a l IH]; intros w w' Hin Hrun.
  - by injection Hrun as <-.
  - cbn [run] in Hrun. destruct (step w a) as [w1|] eqn:Hstep; [|done].
    apply (IH w1); [|done].
    destruct a as [i|i from|i]; cbn [step] in Hstep;
      case_decide; try done; injection Hstep as <-;
      cbn [construct copy_construct destroy gObjectCount];
      [apply wrap32_range|done|apply wrap32_range].
Qed.

Lemma wrap32_zero z : -4294967296 < z < 4294967296 -> wrap32 z = 0 -> z = 0.
Proof.
  unfold wrap32. intros Hz Hw.
  pose proof (Z.div_mod (z + 2147483648) 4294967296 ltac:(lia)) as Hdm.
  lia.
Qed.

(** X11. In a process that starts with the counter at zero and no
    instance, after any defined program of constructions, copies and
    destructions the counter is the number of live instances minus the
    number of copy constructions made, whenever that number fits in 32
    bits; so it is the number of live instances exactly when no copy was
    made. *)
Theorem counter_is_live_minus_copies (l : list op) (w : world) :
  run l (World 0 ∅) = Some w ->
  INT32_MIN <= live w - copies l <= INT32_MAX ->
  gObjectCount w = live w - copies l /\
  (copies l = 0 -> gObjectCount w = live w).
Proof.
  intros Hrun Hfit.
  pose proof (counter_gap l _ _ Hrun) as Hgap.
  assert (Hin0 : in_int32 (gObjectCount (World 0 ∅))).
  { unfold in_int32, INT32_MIN, INT32_MAX. cbn [gObjectCount]. lia. }
  pose proof (counter_in_range l _ _ Hin0 Hrun) as Hin.
  cbn [gObjectCount] in Hgap. change (live (World 0 ∅)) with 0 in Hgap.
  change (wrap32 (0 - 0)) with 0 in Hgap.
  apply wrap32_zero in Hgap;
    [|unfold in_int32, INT32_MIN, INT32_MAX in *; lia].
  split; [lia|]. intros Hno. lia.
Qed.

Lemma counter_is_live_minus_copies_witness :
  exists w, run [Construct 1; Construct 2; Destroy 1] (World 0 ∅) = Some w /\
            gObjectCount w = live w.
Proof.
  exists (World 1 {[2%positive]}). split; [by vm_compute|].
  apply (counter_is_live_minus_copies [Construct 1; Construct 2; Destroy 1]).
  - by vm_compute.
  - by vm_compute.
  - reflexivity.
Defined.

End InstanceCounterFacts.

(** ** Concurrent retains and releases *)

Module ConcurrentFacts.
Import Concurrent.
















(** The outcome of the well-behaved run of [two_owners] in which both
    decrements come first: one delete, by the thread that saw zero. *)
Example two_owners_run :
  crun [0; 1; 0; 1]%nat two_owners =
    Some (Shared 0 1 1 [Thread [] None 0; Thread [] None 0]).
Proof. reflexivity. Qed.

(** Were the counter read again for the comparison, the same run would
    delete twice: what protects the object is that the comparison is on
    the value the atomic decrement returned. *)
Remark reread_deletes_twice :
  exists st, crun_reread [0; 1; 0; 1]%nat two_owners = Some st /\
             deleted st = 2%nat.
Proof. eexists. split; reflexivity. Qed.

End ConcurrentFacts.
